(** * Filter, search, sort and selection engine of the process-mining
      methods catalogue

    A shallow embedding of [src/lib/filters.js], of the reducer of the
    application store and of the value normalisation of the comparison
    radar chart ([src/viz/LandscapeViz.js]), followed by the properties
    the specification states about them. *)

From Stdlib Require Import ZArith QArith Lia Lqa Ascii String.
From stdpp Require Import base option list sorting strings gmap.

Local Open Scope string_scope.
Local Open Scope list_scope.
Local Open Scope Z_scope.

(** ** JavaScript values used by the code *)

Module JS.

(** A JavaScript string as its sequence of UTF-16 code units.  Only the
    search query is kept in this form, because the code takes its
    [trim()] and its [length]; identifiers and enumeration tags, which
    the code only compares with [===], are Rocq strings. *)
Definition str := list N.

Fixpoint of_string (s : string) : str :=
  match s with
  | String c s' => N_of_ascii c :: of_string s'
  | EmptyString => []
  end.

(** WhiteSpace and LineTerminator code points of ECMAScript: what
    [String.prototype.trim] strips from both ends. *)
Definition is_space (c : N) : bool :=
  ((9 <=? c) && (c <=? 13) || (c =? 32) || (c =? 160) || (c =? 5760)
   || (8192 <=? c) && (c <=? 8202) || (c =? 8232) || (c =? 8233)
   || (c =? 8239) || (c =? 8287) || (c =? 12288) || (c =? 65279))%N.

Fixpoint trimStart (s : str) : str :=
  match s with
  | c :: s' => if is_space c then trimStart s' else s
  | [] => []
  end.

Definition trimEnd (s : str) : str := reverse (trimStart (reverse s)).

Definition trim (s : str) : str := trimEnd (trimStart s).

(** Truthiness of the values that occur in conditions. *)
Definition truthy_string (s : option string) : bool :=
  match s with
  | Some s => negb (String.eqb s "")
  | None => false
  end.

Definition truthy_Z (n : option Z) : bool :=
  match n with
  | Some n => negb (n =? 0)
  | None => false
  end.

Definition truthy_str (s : str) : bool := negb (length s =? 0)%nat.

(** [x < n] and [x > n] for [x] a number or [undefined]: [undefined]
    converts to NaN, and every comparison with NaN is false. *)
Definition lt (x : option Z) (n : Z) : bool :=
  match x with
  | Some x => x <? n
  | None => false
  end.

Definition gt (x : option Z) (n : Z) : bool :=
  match x with
  | Some x => n <? x
  | None => false
  end.

(** [a.includes(x)] on an array of strings. *)
Definition includes (a : list string) (x : string) : bool :=
  bool_decide (x ∈ a).

(** [a?.some(p)]: [undefined] when the array is absent. *)
Definition some_opt {A} (a : option (list A)) (p : A → bool) : option bool :=
  match a with
  | Some a => Some (existsb p a)
  | None => None
  end.

(** [!v] for [v] a boolean or [undefined]. *)
Definition not_opt (v : option bool) : bool :=
  match v with
  | Some b => negb b
  | None => true
  end.

(** A number that may be NaN ([None]). *)
Definition num := option Q.

(** The property names an object literal inherits from
    [Object.prototype]: the properties of ECMAScript and of its annex B.
    All are functions, except [__proto__], an accessor that yields
    [Object.prototype] itself. *)
Definition inherited_names : list string := [
  "constructor"; "hasOwnProperty"; "isPrototypeOf"; "propertyIsEnumerable";
  "toLocaleString"; "toString"; "valueOf"; "__proto__";
  "__defineGetter__"; "__defineSetter__";
  "__lookupGetter__"; "__lookupSetter__"
].

Definition inherited (k : string) : bool := bool_decide (k ∈ inherited_names).

(** What [o[k]] yields on an object literal [o] whose own properties
    hold numbers: the own property, else the function or object
    inherited under that name, else [undefined]. *)
Inductive property :=
  | Own (n : Z)
  | Inherited
  | Undefined.

Definition get (o : gmap string Z) (k : string) : property :=
  match o !! k with
  | Some n => Own n
  | None => if inherited k then Inherited else Undefined
  end.

(** The property key an optional string is converted to: [o[undefined]]
    reads the property named ["undefined"]. *)
Definition key (v : option string) : string := default "undefined" v.

(** [p || d] and [p ?? d] as operands of arithmetic, for [p] read from
    such a table and [d] a number.  An inherited function or object is
    truthy and not nullish, so it is kept, and converts to NaN. *)
Definition or_number (p : property) (d : Z) : option Z :=
  match p with
  | Own n => Some (if n =? 0 then d else n)
  | Inherited => None
  | Undefined => Some d
  end.

Definition nullish_number (p : property) (d : Z) : option Z :=
  match p with
  | Own n => Some n
  | Inherited => None
  | Undefined => Some d
  end.

End JS.

(** ** Data model *)

(** One entry of [matches] in a Fuse.js result. *)
Record FuseMatch := {
  fm_key : string;
  fm_value : string;
  fm_indices : list (nat * nat);
}.

Record References := {
  r_year : option Z;
  r_paper_title : option string;
}.

(** A method of the dataset.  Fields the code reads through [?.], or
    tests for presence, are optional ([None] is [undefined], the field
    missing from the record); a year that is present is an integer, and
    a year that is JSON [null] is written [Some 0]: every test and
    comparison the code makes of a year takes [null] as it takes [0].
    [m_searchScore] and [m_searchMatches] exist only on the copies
    [searchMethods] makes. *)
Record Method := {
  m_id : string;
  m_name : string;
  m_pipeline_step : string;
  m_modalities : option (list string);
  m_tasks : option (list string);
  m_inputs : option (list string);
  m_outputs : option (list string);
  m_evidence_type : option string;
  m_maturity : option string;
  m_automation_level : option string;
  m_references : option References;
  m_searchScore : option Q;
  m_searchMatches : option (list FuseMatch);
}.

(** [method.references?.year] *)
Definition year_of (method : Method) : option Z :=
  m_references method ≫= r_year.

Record YearRange := {
  yr_min : option Z;
  yr_max : option Z;
}.

(** The filter criteria.  The array selectors and [yearRange] may be
    [null]: the code guards each of them. *)
Record Filters := {
  pipelineStep : option string;
  modalities : option (list string);
  tasks : option (list string);
  evidenceTypes : option (list string);
  maturityLevels : option (list string);
  yearRange : option YearRange;
  searchQuery : JS.str;
}.

Definition FILTER_DEFAULTS : Filters := {|
  pipelineStep := None;
  modalities := Some [];
  tasks := Some [];
  evidenceTypes := Some [];
  maturityLevels := Some [];
  yearRange := Some {| yr_min := None; yr_max := None |};
  searchQuery := [];
|}.

(** ** filters.js: filtering *)

(** [sel && sel.length > 0] *)
Definition selector_active (sel : option (list string)) : bool :=
  match sel with
  | Some l => (0 <? length l)%nat
  | None => false
  end.

Definition selected (sel : option (list string)) : list string :=
  default [] sel.

(** The callback of [methods.filter] in [filterMethods]: one early
    [return false] per category, in the order of the source. *)
Definition keepMethod (filters : Filters) (method : Method) : bool :=
  if JS.truthy_string (pipelineStep filters)
     && negb (bool_decide (Some (m_pipeline_step method) = pipelineStep filters))
  then false
  else if selector_active (modalities filters)
     && JS.not_opt (JS.some_opt (m_modalities method)
                      (JS.includes (selected (modalities filters))))
  then false
  else if selector_active (tasks filters)
     && JS.not_opt (JS.some_opt (m_tasks method)
                      (JS.includes (selected (tasks filters))))
  then false
  else if selector_active (evidenceTypes filters)
     && negb (from_option (JS.includes (selected (evidenceTypes filters)))
                false (m_evidence_type method))
  then false
  else if selector_active (maturityLevels filters)
     && negb (from_option (JS.includes (selected (maturityLevels filters)))
                false (m_maturity method))
  then false
  else
    match yearRange filters with
    | Some range =>
        let year := year_of method in
        if JS.truthy_Z (yr_min range) && JS.lt year (default 0 (yr_min range))
        then false
        else if JS.truthy_Z (yr_max range) && JS.gt year (default 0 (yr_max range))
        then false
        else true
    | None => true
    end.

Definition filterMethods (methods : list Method) (filters : Filters)
  : list Method :=
  List.filter (keepMethod filters) methods.

(** ** filters.js: fuzzy search *)

(** Fuse.js is an external library.  An index is what [new Fuse(methods,
    options)] returns; the code only calls its [search] method, which
    yields the matches ordered by relevance, each with the matched item,
    its score and the matched spans. *)
Record FuseResult := {
  item : Method;
  score : Q;
  matches : list FuseMatch;
}.

Record Fuse := {
  search : JS.str → list FuseResult;
}.

(** [{...result.item, searchScore: result.score, searchMatches: result.matches}] *)
Definition annotate (result : FuseResult) : Method := {|
  m_id := m_id (item result);
  m_name := m_name (item result);
  m_pipeline_step := m_pipeline_step (item result);
  m_modalities := m_modalities (item result);
  m_tasks := m_tasks (item result);
  m_inputs := m_inputs (item result);
  m_outputs := m_outputs (item result);
  m_evidence_type := m_evidence_type (item result);
  m_maturity := m_maturity (item result);
  m_automation_level := m_automation_level (item result);
  m_references := m_references (item result);
  m_searchScore := Some (score result);
  m_searchMatches := Some (matches result);
|}.

(** [None] is the [null] the code returns "to indicate no search filter
    applied". *)
Definition searchMethods (searchIndex : Fuse) (query : JS.str)
  : option (list Method) :=
  if negb (JS.truthy_str query) || (length (JS.trim query) <? 2)%nat
  then None
  else
    let results := search searchIndex (JS.trim query) in
    Some (map annotate results).

(** An array is truthy, also when empty, so [if (searchResults)] only
    tests for [null]. *)
Definition applyFiltersAndSearch (methods : list Method) (searchIndex : Fuse)
    (filters : Filters) : list Method :=
  let result :=
    if JS.truthy_str (searchQuery filters)
       && (2 <=? length (JS.trim (searchQuery filters)))%nat
    then
      match searchMethods searchIndex (searchQuery filters) with
      | Some searchResults => searchResults
      | None => methods
      end
    else methods in
  filterMethods result filters.

(** ** filters.js: sorting *)

(** [Array.prototype.sort] with a comparator.  ECMAScript requires the
    sort to be stable and, for a consistent comparator, fixes the result:
    the elements in non-decreasing order, ties in their order of input.
    Insertion from the right computes that result: an element is put
    before the first element of the sorted rest that it does not exceed.
    For a comparator that is not consistent on the elements of the array
    ECMAScript leaves the order to the implementation; [array_sort] then
    computes one permutation an implementation may return, and nothing is
    stated of it below beyond being a permutation. *)
Section ArraySort.
Context {A : Type} (compareFn : A → A → Q).

Fixpoint insert_before (x : A) (l : list A) : list A :=
  match l with
  | y :: l' =>
      if Qlt_le_dec 0 (compareFn x y) then y :: insert_before x l'
      else x :: l
  | [] => [x]
  end.

Definition array_sort (l : list A) : list A := foldr insert_before [] l.
End ArraySort.

(** The own properties of the object literal [maturityOrder] of
    [sortMethods].  The code reads it with [maturityOrder[x]], which is
    [JS.get]: a level that names an inherited property, such as
    [constructor], finds that property. *)
Definition maturityOrder : gmap string Z :=
  {[ "research" := 0; "emerging" := 1; "established" := 2; "mature" := 3 ]}.

(** [v || d] for [v] a number or [undefined]: [0] is falsy as well. *)
Definition or_Z (v : option Z) (d : Z) : Z :=
  match v with
  | Some n => if n =? 0 then d else n
  | None => d
  end.

Definition or_Q (v : option Q) (d : Q) : Q :=
  match v with
  | Some q => if Qeq_bool q 0 then d else q
  | None => d
  end.

Section SortMethods.
(** [String.prototype.localeCompare] depends on the host's locale. *)
Variable localeCompare : string → string → Z.

(** [(maturityOrder[method.maturity] || 0)] as an operand of the
    subtraction: a rank, or NaN ([None]). *)
Definition maturity_operand (method : Method) : option Z :=
  JS.or_number (JS.get maturityOrder (JS.key (m_maturity method))) 0.

(** The [switch (sortBy)] of the comparator.  The difference of two
    maturity operands is NaN when one of them is; [Array.prototype.sort]
    takes a comparator value of NaN as [+0], and that [0] is what is
    written here. *)
Definition comparison (sortBy : string) (a b : Method) : Q :=
  if (sortBy =? "name")%string then
    inject_Z (localeCompare (m_name a) (m_name b))
  else if (sortBy =? "year")%string then
    inject_Z (or_Z (year_of a) 0 - or_Z (year_of b) 0)
  else if (sortBy =? "maturity")%string then
    match maturity_operand a, maturity_operand b with
    | Some x, Some y => inject_Z (x - y)
    | _, _ => 0%Q
    end
  else if (sortBy =? "pipeline_step")%string then
    inject_Z (localeCompare (m_pipeline_step a) (m_pipeline_step b))
  else if (sortBy =? "searchScore")%string then
    (or_Q (m_searchScore a) 1 - or_Q (m_searchScore b) 1)%Q
  else 0%Q.

Definition comparator (sortBy order : string) (a b : Method) : Q :=
  if (order =? "desc")%string then (- comparison sortBy a b)%Q
  else comparison sortBy a b.

(** The array [sortMethods] returns, as a function of the elements of
    its argument. *)
Definition sortMethods (methods : list Method) (sortBy order : string)
  : list Method :=
  array_sort (comparator sortBy order) methods.
End SortMethods.

(** *** The arrays themselves

    [sortMethods] copies its argument ([[...methods]]) and sorts the copy
    in place.  Arrays live in a store, by reference, so that the copy and
    the in-place update are visible. *)

Definition loc := positive.

Definition spread (σ : gmap loc (list Method)) (src : loc)
  : option (loc * gmap loc (list Method)) :=
  arr ← σ !! src;
  let l := fresh (dom σ) in
  Some (l, <[l := arr]> σ).

Definition sort_in_place (compareFn : Method → Method → Q)
    (σ : gmap loc (list Method)) (l : loc) : option (gmap loc (list Method)) :=
  arr ← σ !! l;
  Some (<[l := array_sort compareFn arr]> σ).

Definition sortMethods_ref (localeCompare : string → string → Z)
    (σ : gmap loc (list Method)) (methods : loc) (sortBy order : string)
  : option (loc * gmap loc (list Method)) :=
  '(sorted, σ1) ← spread σ methods;
  σ2 ← sort_in_place (comparator localeCompare sortBy order) σ1 sorted;
  Some (sorted, σ2).

(** ** The store: state, actions and reducer *)

Record PipelineStep := {
  ps_id : string;
  ps_name : string;
  ps_order : Z;
}.

Record Dataset := {
  pipeline_steps : list PipelineStep;
  methods_of : list Method;
}.

Record State := mkState {
  data : option Dataset;
  loading : bool;
  error : option string;
  validationErrors : list string;
  filters : Filters;
  selectedStep : option string;
  selectedModality : option string;
  selectedMethodId : option string;
  hoveredMethodId : option string;
  compareMethodIds : list string;
  isCompareMode : bool;
  showFilters : bool;
  sortBy : string;
  sortOrder : string;
  searchIndex : option Fuse;
}.

Definition initialState : State := {|
  data := None;
  loading := true;
  error := None;
  validationErrors := [];
  filters := FILTER_DEFAULTS;
  selectedStep := None;
  selectedModality := None;
  selectedMethodId := None;
  hoveredMethodId := None;
  compareMethodIds := [];
  isCompareMode := false;
  showFilters := false;
  sortBy := "name";
  sortOrder := "asc";
  searchIndex := None;
|}.

(** The payload of [SET_FILTERS]: any subset of the filter fields. *)
Record FiltersPatch := {
  p_pipelineStep : option (option string);
  p_modalities : option (option (list string));
  p_tasks : option (option (list string));
  p_evidenceTypes : option (option (list string));
  p_maturityLevels : option (option (list string));
  p_yearRange : option (option YearRange);
  p_searchQuery : option JS.str;
}.

(** [{ ...filters, ...payload }] *)
Definition merge_filters (f : Filters) (payload : FiltersPatch) : Filters := {|
  pipelineStep := default (pipelineStep f) (p_pipelineStep payload);
  modalities := default (modalities f) (p_modalities payload);
  tasks := default (tasks f) (p_tasks payload);
  evidenceTypes := default (evidenceTypes f) (p_evidenceTypes payload);
  maturityLevels := default (maturityLevels f) (p_maturityLevels payload);
  yearRange := default (yearRange f) (p_yearRange payload);
  searchQuery := default (searchQuery f) (p_searchQuery payload);
|}.

(** [{ ...filters, pipelineStep: step, modalities: mods }] *)
Definition with_step_modalities (f : Filters) (step : option string)
    (mods : list string) : Filters := {|
  pipelineStep := step;
  modalities := Some mods;
  tasks := tasks f;
  evidenceTypes := evidenceTypes f;
  maturityLevels := maturityLevels f;
  yearRange := yearRange f;
  searchQuery := searchQuery f;
|}.

Inductive Action :=
  | SET_DATA (payload : Dataset)
  | SET_ERROR (payload : option string)
  | SET_LOADING (payload : bool)
  | SET_VALIDATION_ERRORS (payload : list string)
  | SET_FILTERS (payload : FiltersPatch)
  | RESET_FILTERS
  | SET_SELECTED_STEP (payload : option string)
  | SET_SELECTED_MODALITY (payload : option string)
  | SET_SELECTED_METHOD (payload : option string)
  | SET_HOVERED_METHOD (payload : option string)
  | TOGGLE_COMPARE_METHOD (payload : string)
  | CLEAR_COMPARE
  | SET_COMPARE_MODE (payload : bool)
  | TOGGLE_FILTERS
  | SET_SORT (payload_sortBy payload_order : string)
  | SET_SEARCH_INDEX (payload : Fuse)
  | UNKNOWN_ACTION (type : string).

(** The body of [case ACTIONS.TOGGLE_COMPARE_METHOD]. *)
Definition toggle_compare (current : list string) (methodId : string)
  : list string :=
  if JS.includes current methodId then
    List.filter (λ id, negb (String.eqb id methodId)) current
  else if (length current <? 3)%nat then
    current ++ [methodId]
  else
    current.

Definition appReducer (state : State) (action : Action) : State :=
  let '(mkState data loading error validationErrors filters selectedStep
          selectedModality selectedMethodId hoveredMethodId compareMethodIds
          isCompareMode showFilters sortBy sortOrder searchIndex) := state in
  match action with
  | SET_DATA payload =>
      mkState (Some payload) false None validationErrors filters selectedStep
        selectedModality selectedMethodId hoveredMethodId compareMethodIds
        isCompareMode showFilters sortBy sortOrder searchIndex
  | SET_ERROR payload =>
      mkState data false payload validationErrors filters selectedStep
        selectedModality selectedMethodId hoveredMethodId compareMethodIds
        isCompareMode showFilters sortBy sortOrder searchIndex
  | SET_LOADING payload =>
      mkState data payload error validationErrors filters selectedStep
        selectedModality selectedMethodId hoveredMethodId compareMethodIds
        isCompareMode showFilters sortBy sortOrder searchIndex
  | SET_VALIDATION_ERRORS payload =>
      mkState data loading error payload filters selectedStep
        selectedModality selectedMethodId hoveredMethodId compareMethodIds
        isCompareMode showFilters sortBy sortOrder searchIndex
  | SET_FILTERS payload =>
      mkState data loading error validationErrors
        (merge_filters filters payload) selectedStep
        selectedModality selectedMethodId hoveredMethodId compareMethodIds
        isCompareMode showFilters sortBy sortOrder searchIndex
  | RESET_FILTERS =>
      mkState data loading error validationErrors FILTER_DEFAULTS None
        None selectedMethodId hoveredMethodId compareMethodIds
        isCompareMode showFilters sortBy sortOrder searchIndex
  | SET_SELECTED_STEP payload =>
      mkState data loading error validationErrors
        (with_step_modalities filters payload []) payload
        None selectedMethodId hoveredMethodId compareMethodIds
        isCompareMode showFilters sortBy sortOrder searchIndex
  | SET_SELECTED_MODALITY payload =>
      mkState data loading error validationErrors
        (with_step_modalities filters (Some "collect")
           (if JS.truthy_string payload then [default "" payload] else []))
        (Some "collect")
        payload selectedMethodId hoveredMethodId compareMethodIds
        isCompareMode showFilters sortBy sortOrder searchIndex
  | SET_SELECTED_METHOD payload =>
      mkState data loading error validationErrors filters selectedStep
        selectedModality payload hoveredMethodId compareMethodIds
        isCompareMode showFilters sortBy sortOrder searchIndex
  | SET_HOVERED_METHOD payload =>
      mkState data loading error validationErrors filters selectedStep
        selectedModality selectedMethodId payload compareMethodIds
        isCompareMode showFilters sortBy sortOrder searchIndex
  | TOGGLE_COMPARE_METHOD payload =>
      mkState data loading error validationErrors filters selectedStep
        selectedModality selectedMethodId hoveredMethodId
        (toggle_compare compareMethodIds payload)
        isCompareMode showFilters sortBy sortOrder searchIndex
  | CLEAR_COMPARE =>
      mkState data loading error validationErrors filters selectedStep
        selectedModality selectedMethodId hoveredMethodId []
        false showFilters sortBy sortOrder searchIndex
  | SET_COMPARE_MODE payload =>
      mkState data loading error validationErrors filters selectedStep
        selectedModality selectedMethodId hoveredMethodId compareMethodIds
        payload showFilters sortBy sortOrder searchIndex
  | TOGGLE_FILTERS =>
      mkState data loading error validationErrors filters selectedStep
        selectedModality selectedMethodId hoveredMethodId compareMethodIds
        isCompareMode (negb showFilters) sortBy sortOrder searchIndex
  | SET_SORT payload_sortBy payload_order =>
      mkState data loading error validationErrors filters selectedStep
        selectedModality selectedMethodId hoveredMethodId compareMethodIds
        isCompareMode showFilters payload_sortBy payload_order searchIndex
  | SET_SEARCH_INDEX payload =>
      mkState data loading error validationErrors filters selectedStep
        selectedModality selectedMethodId hoveredMethodId compareMethodIds
        isCompareMode showFilters sortBy sortOrder (Some payload)
  | UNKNOWN_ACTION _ => state
  end.

(** The action creators. *)
Module actions.
Definition setSelectedStep (stepId : option string) : Action :=
  SET_SELECTED_STEP stepId.
Definition setSelectedModality (modalityId : option string) : Action :=
  SET_SELECTED_MODALITY modalityId.
Definition setSelectedMethod (methodId : option string) : Action :=
  SET_SELECTED_METHOD methodId.
Definition setHoveredMethod (methodId : option string) : Action :=
  SET_HOVERED_METHOD methodId.
Definition setFilters (filters : FiltersPatch) : Action :=
  SET_FILTERS filters.
Definition resetFilters : Action := RESET_FILTERS.
Definition toggleCompareMethod (methodId : string) : Action :=
  TOGGLE_COMPARE_METHOD methodId.
Definition clearCompare : Action := CLEAR_COMPARE.
Definition setCompareMode (enabled : bool) : Action :=
  SET_COMPARE_MODE enabled.
Definition toggleFilters : Action := TOGGLE_FILTERS.
Definition setSort (sortBy order : string) : Action :=
  SET_SORT sortBy order.
End actions.

(** The store after a sequence of dispatched actions: [useReducer]
    starts from [initialState] and applies [appReducer] to each. *)
Definition dispatch_all (acts : list Action) : State :=
  foldl appReducer initialState acts.

(** ** LandscapeViz.js: values of the comparison radar chart *)

(** The own properties of the rank tables, read by the code with
    [MATURITY_ORDER[x]] and [AUTOMATION_ORDER[x]], which is [JS.get]. *)
Definition MATURITY_ORDER : gmap string Z :=
  {[ "research" := 0; "emerging" := 1; "established" := 2; "mature" := 3 ]}.

Definition AUTOMATION_ORDER : gmap string Z :=
  {[ "manual" := 0; "semi-automated" := 1; "automated" := 2 ]}.

Record Dimension := {
  dim_key : string;
  dim_label : string;
  dim_max : Z;
}.

Definition dimensions : list Dimension := [
  {| dim_key := "maturity"; dim_label := "Maturity"; dim_max := 3 |};
  {| dim_key := "automation"; dim_label := "Automation"; dim_max := 2 |};
  {| dim_key := "modalities"; dim_label := "Modalities"; dim_max := 6 |};
  {| dim_key := "tasks"; dim_label := "Tasks"; dim_max := 10 |};
  {| dim_key := "inputs"; dim_label := "Inputs"; dim_max := 5 |};
  {| dim_key := "outputs"; dim_label := "Outputs"; dim_max := 5 |}
].

(** [a?.length] *)
Definition length_opt (a : option (list string)) : option Z :=
  (λ l, Z.of_nat (length l)) <$> a.

(** [n / d] on two integers, kept as the exact rational. *)
Definition ratio (n d : Z) : Q := (inject_Z n / inject_Z d)%Q.

(** [x / d] for [x] a number or NaN. *)
Definition over (x : option Z) (d : Z) : JS.num := (λ n, ratio n d) <$> x.

(** The [switch (dim.key)] that computes one plotted value.  A level
    that names an inherited property is not nullish, so [?? 1] keeps the
    function found and the quotient is NaN. *)
Definition radarValue (method : Method) (dim : Dimension) : JS.num :=
  if (dim_key dim =? "maturity")%string then
    over (JS.nullish_number
            (JS.get MATURITY_ORDER (JS.key (m_maturity method))) 1)
         (dim_max dim)
  else if (dim_key dim =? "automation")%string then
    over (JS.nullish_number
            (JS.get AUTOMATION_ORDER (JS.key (m_automation_level method))) 1)
         (dim_max dim)
  else if (dim_key dim =? "modalities")%string then
    Some (ratio (Z.min (or_Z (length_opt (m_modalities method)) 1)
                   (dim_max dim)) (dim_max dim))
  else if (dim_key dim =? "tasks")%string then
    Some (ratio (Z.min (or_Z (length_opt (m_tasks method)) 1) (dim_max dim))
            (dim_max dim))
  else if (dim_key dim =? "inputs")%string then
    Some (ratio (Z.min (or_Z (length_opt (m_inputs method)) 1) (dim_max dim))
            (dim_max dim))
  else if (dim_key dim =? "outputs")%string then
    Some (ratio (Z.min (or_Z (length_opt (m_outputs method)) 1)
                   (dim_max dim)) (dim_max dim))
  else Some (1 # 2)%Q.

(** [const values = dimensions.map(...)] for one method. *)
Definition radarValues (method : Method) : list JS.num :=
  map (radarValue method) dimensions.

(** What [createComparisonVisualization] plots: nothing (a placeholder
    text) for fewer than two methods, else one polygon of values per
    method. *)
Definition createComparisonVisualization (methods : list Method)
  : option (list (list JS.num)) :=
  if (length methods <? 2)%nat then None
  else Some (map radarValues methods).

(** * What the specification says of the filter categories

    These definitions follow the words of the specification (§4.2), not
    the code; the theorems below compare the two. *)

Module Spec.

(** A selector set that is not empty. *)
Definition nonempty (sel : option (list string)) : Prop :=
  ∃ l, sel = Some l ∧ l ≠ [].

(** Pipeline-stage equality. *)
Definition stage_ok (f : Filters) (m : Method) : Prop :=
  ∀ s, pipelineStep f = Some s → s ≠ "" → m_pipeline_step m = s.

(** The intersection of a selector set and a tag set is not empty. *)
Definition intersects (sel tags : option (list string)) : Prop :=
  ∃ x, x ∈ default [] sel ∧ x ∈ default [] tags.

Definition modalities_ok (f : Filters) (m : Method) : Prop :=
  nonempty (modalities f) → intersects (modalities f) (m_modalities m).

Definition tasks_ok (f : Filters) (m : Method) : Prop :=
  nonempty (tasks f) → intersects (tasks f) (m_tasks m).

(** Membership of a single tag in a selector set. *)
Definition member (sel : option (list string)) (v : option string) : Prop :=
  ∃ x, v = Some x ∧ x ∈ default [] sel.

Definition evidence_ok (f : Filters) (m : Method) : Prop :=
  nonempty (evidenceTypes f) → member (evidenceTypes f) (m_evidence_type m).

Definition maturity_ok (f : Filters) (m : Method) : Prop :=
  nonempty (maturityLevels f) → member (maturityLevels f) (m_maturity m).

(** A non-trivial bound of the year range. *)
Definition bound (b : option Z) (n : Z) : Prop := b = Some n ∧ n ≠ 0.

(** Year within [[min,max]], both ends included, "treating an absent
    year as failing a non-trivial bound". *)
Definition year_in_range (f : Filters) (m : Method) : Prop :=
  ∀ r, yearRange f = Some r →
    (∀ lo, bound (yr_min r) lo → ∃ y, year_of m = Some y ∧ lo ≤ y) ∧
    (∀ hi, bound (yr_max r) hi → ∃ y, year_of m = Some y ∧ y ≤ hi).

(** The test the code makes instead: only a year that is present can
    fail a bound. *)
Definition year_not_outside (f : Filters) (m : Method) : Prop :=
  ∀ r y, yearRange f = Some r → year_of m = Some y →
    (∀ lo, bound (yr_min r) lo → lo ≤ y) ∧
    (∀ hi, bound (yr_max r) hi → y ≤ hi).

(** The five categories other than the year. *)
Definition categories_ok (f : Filters) (m : Method) : Prop :=
  stage_ok f m ∧ modalities_ok f m ∧ tasks_ok f m ∧
  evidence_ok f m ∧ maturity_ok f m.

(** The conjunction law as the specification states it. *)
Definition passes (f : Filters) (m : Method) : Prop :=
  categories_ok f m ∧ year_in_range f m.

End Spec.

(** * Definitions used in the statements *)

(** The year-range test at the end of the filter callback. *)
Definition year_test (range : option YearRange) (year : option Z) : bool :=
  match range with
  | Some range =>
      if JS.truthy_Z (yr_min range) && JS.lt year (default 0 (yr_min range))
      then false
      else if JS.truthy_Z (yr_max range) && JS.gt year (default 0 (yr_max range))
      then false
      else true
  | None => true
  end.

(** The methods the filter callback is run on: the ranked matches when a
    search applies, else the methods given. *)
Definition working_set (methods : list Method) (searchIndex : Fuse)
    (f : Filters) : list Method :=
  if JS.truthy_str (searchQuery f)
     && (2 <=? length (JS.trim (searchQuery f)))%nat
  then default methods (searchMethods searchIndex (searchQuery f))
  else methods.

(** A method is retained by [filterMethods], and by
    [applyFiltersAndSearch], whenever it is in the list filtered. *)
Definition retained (methods : list Method) (searchIndex : Fuse) (f : Filters)
    (m : Method) : Prop :=
  (m ∈ methods → m ∈ filterMethods methods f) ∧
  (m ∈ working_set methods searchIndex f →
   m ∈ applyFiltersAndSearch methods searchIndex f).

(** The compare set holds at most three ids, none of them twice. *)
Definition compare_inv (s : State) : Prop :=
  NoDup (compareMethodIds s) ∧ (length (compareMethodIds s) ≤ 3)%nat.

(** Two methods tie under a sort key when the comparison of the first
    with the second is [0]. *)
Definition tied (localeCompare : string → string → Z) (sortBy : string)
    (a x : Method) : bool :=
  Qeq_bool (comparison localeCompare sortBy a x) 0.

(** Comparison of strings by code units: the [localeCompare] of a locale
    without collation rules, used in the concrete instances. *)
Definition codeUnitCompare (s t : string) : Z :=
  match String.compare s t with
  | Eq => 0
  | Lt => -1
  | Gt => 1
  end.

(** The numeric key of the sort by search relevance. *)
Definition scoreKey (m : Method) : Q := or_Q (m_searchScore m) 1.

(** The ranks of the two ordered enumerations of the data model. *)
Definition maturity_rank (level : string) : option Z :=
  if (level =? "research")%string then Some 0
  else if (level =? "emerging")%string then Some 1
  else if (level =? "established")%string then Some 2
  else if (level =? "mature")%string then Some 3
  else None.

Definition automation_rank (level : string) : option Z :=
  if (level =? "manual")%string then Some 0
  else if (level =? "semi-automated")%string then Some 1
  else if (level =? "automated")%string then Some 2
  else None.

(** The number of entries of a list field; an absent field has none. *)
Definition count (a : option (list string)) : Z :=
  Z.of_nat (length (default [] a)).

(** A count-based value as the chart computes it: the count, or 1 when
    there is no entry, capped at [max] and divided by [max]. *)
Definition capped (a : option (list string)) (max : Z) : Q :=
  ratio (Z.min (if count a =? 0 then 1 else count a) max) max.

(** ** Sample data for the concrete instances *)

Module Sample.

Definition method (id step : string) (mods : option (list string))
    (year : option Z) : Method := {|
  m_id := id;
  m_name := id;
  m_pipeline_step := step;
  m_modalities := mods;
  m_tasks := Some ["discovery"];
  m_inputs := Some ["documents"];
  m_outputs := Some ["event log"];
  m_evidence_type := Some "case-study";
  m_maturity := Some "emerging";
  m_automation_level := Some "automated";
  m_references := Some {| r_year := year; r_paper_title := None |};
  m_searchScore := None;
  m_searchMatches := None;
|}.

Definition m2015 : Method := method "m-2015" "collect" (Some ["text"]) (Some 2015).
Definition m2020 : Method := method "m-2020" "preprocess" (Some ["image"]) (Some 2020).
Definition undated : Method := method "m-undated" "apply_mining" (Some ["text"; "video"]) None.

Definition also2015 : Method := method "n-2015" "preprocess" (Some ["audio"]) (Some 2015).

(** A method of a given maturity level. *)
Definition leveled (id level : string) : Method := {|
  m_id := id;
  m_name := id;
  m_pipeline_step := "preprocess";
  m_modalities := Some ["text"];
  m_tasks := Some ["discovery"];
  m_inputs := Some ["documents"];
  m_outputs := Some ["event log"];
  m_evidence_type := Some "case-study";
  m_maturity := Some level;
  m_automation_level := Some "automated";
  m_references := Some {| r_year := Some 2019; r_paper_title := None |};
  m_searchScore := None;
  m_searchMatches := None;
|}.

(** A search result: a method annotated with its score. *)
Definition scored (id : string) (q : Q) : Method :=
  annotate {| item := method id "collect" (Some ["text"]) (Some 2021);
              score := q; matches := [] |}.

Definition range15_20 : YearRange := {| yr_min := Some 2015; yr_max := Some 2020 |}.

(** The default filters with a year range and a query. *)
Definition filters_with (range : YearRange) (query : JS.str) : Filters := {|
  pipelineStep := None;
  modalities := Some [];
  tasks := Some [];
  evidenceTypes := Some [];
  maturityLevels := Some [];
  yearRange := Some range;
  searchQuery := query;
|}.

(** An index in which nothing matches. *)
Definition no_match : Fuse := {| search := λ _, [] |}.

End Sample.

(** * The rest of the code

    The functions of the same files that the properties above do not
    reach, and the components that call them. *)

(** ** The store: derived list and click handlers *)

(** The memoised [filteredMethods] of [AppStateProvider]: empty until
    both the dataset and the search index are there. *)
Definition filteredMethods (state : State) : list Method :=
  match data state, searchIndex state with
  | Some d, Some idx => applyFiltersAndSearch (methods_of d) idx (filters state)
  | _, _ => []
  end.

(** [allMethods] of the enhanced state: [state.data?.methods || []]. *)
Definition allMethods (state : State) : list Method :=
  from_option methods_of [] (data state).

(** [handleStepClick] of the pipeline component: the action a click on a
    stage card dispatches, from the selection current at the click. *)
Definition handleStepClick (state : State) (stepId : string) : Action :=
  let currentSelected := selectedStep state in
  let currentModality := selectedModality state in
  if bool_decide (Some stepId = currentSelected)
     && negb (JS.truthy_string currentModality)
  then actions.setSelectedStep None
  else if (stepId =? "collect")%string && JS.truthy_string currentModality
  then actions.setSelectedModality None
  else actions.setSelectedStep (Some stepId).

(** [handleDataSourceClick]: a click on a data-source circle. *)
Definition handleDataSourceClick (state : State) (modalityId : string)
  : Action :=
  let currentModality := selectedModality state in
  let newModality :=
    if bool_decide (Some modalityId = currentModality) then None
    else Some modalityId in
  actions.setSelectedModality newModality.

(** [clearAll] of the active-filters row: two dispatches. *)
Definition clearAll : list Action := [
  actions.setSelectedStep None;
  actions.setFilters
    {| p_pipelineStep := None; p_modalities := Some (Some []);
       p_tasks := Some (Some []); p_evidenceTypes := None;
       p_maturityLevels := None; p_yearRange := None;
       p_searchQuery := Some [] |}
].

(** The four array filters [toggleArrayFilter] is called with. *)
Inductive ArrayFilter :=
  | F_modalities
  | F_tasks
  | F_maturityLevels
  | F_evidenceTypes.

(** [filters[filterName]] *)
Definition array_filter (f : Filters) (filterName : ArrayFilter)
  : option (list string) :=
  match filterName with
  | F_modalities => modalities f
  | F_tasks => tasks f
  | F_maturityLevels => maturityLevels f
  | F_evidenceTypes => evidenceTypes f
  end.

(** [{ [filterName]: updated }] *)
Definition array_patch (filterName : ArrayFilter) (updated : list string)
  : FiltersPatch :=
  match filterName with
  | F_modalities =>
      {| p_pipelineStep := None; p_modalities := Some (Some updated);
         p_tasks := None; p_evidenceTypes := None; p_maturityLevels := None;
         p_yearRange := None; p_searchQuery := None |}
  | F_tasks =>
      {| p_pipelineStep := None; p_modalities := None;
         p_tasks := Some (Some updated); p_evidenceTypes := None;
         p_maturityLevels := None; p_yearRange := None; p_searchQuery := None |}
  | F_maturityLevels =>
      {| p_pipelineStep := None; p_modalities := None; p_tasks := None;
         p_evidenceTypes := None; p_maturityLevels := Some (Some updated);
         p_yearRange := None; p_searchQuery := None |}
  | F_evidenceTypes =>
      {| p_pipelineStep := None; p_modalities := None; p_tasks := None;
         p_evidenceTypes := Some (Some updated); p_maturityLevels := None;
         p_yearRange := None; p_searchQuery := None |}
  end.

(** [toggleArrayFilter] of the filters panel: the action a click on a
    chip dispatches. *)
Definition toggleArrayFilter (f : Filters) (filterName : ArrayFilter)
    (value : string) : Action :=
  let current := default [] (array_filter f filterName) in
  let updated :=
    if JS.includes current value
    then List.filter (λ v, negb (String.eqb v value)) current
    else current ++ [value] in
  actions.setFilters (array_patch filterName updated).

(** ** filters.js: filter options and counts *)

(** A [Set] with [add], in the order of first insertion. *)
Definition set_add {A} `{EqDecision A} (s : list A) (x : A) : list A :=
  if bool_decide (x ∈ s) then s else s ++ [x].

(** [Array.prototype.sort()] without comparator, on strings: order of
    code units. *)
Definition default_sort (a : list string) : list string :=
  array_sort (λ x y, inject_Z (codeUnitCompare x y)) a.

Record YearSpan := {
  ys_min : Z;
  ys_max : Z;
}.

Record FilterOptions := {
  fo_modalities : list string;
  fo_tasks : list string;
  fo_evidenceTypes : list string;
  fo_maturityLevels : list string;
  fo_yearRange : YearSpan;
}.

(** [if (v) set.add(v)] for a string that may be absent. *)
Definition add_truthy (s : list string) (v : option string) : list string :=
  if JS.truthy_string v then set_add s (default "" v) else s.

(** The five sets after [methods.forEach]. *)
Definition modalities_seen (methods : list Method) : list string :=
  foldl (λ s method, foldl set_add s (default [] (m_modalities method)))
    [] methods.

Definition tasks_seen (methods : list Method) : list string :=
  foldl (λ s method, foldl set_add s (default [] (m_tasks method)))
    [] methods.

Definition evidenceTypes_seen (methods : list Method) : list string :=
  foldl (λ s method, add_truthy s (m_evidence_type method)) [] methods.

Definition maturityLevels_seen (methods : list Method) : list string :=
  foldl (λ s method, add_truthy s (m_maturity method)) [] methods.

Definition years_seen (methods : list Method) : list Z :=
  foldl (λ s method,
           if JS.truthy_Z (year_of method)
           then set_add s (default 0 (year_of method)) else s)
    [] methods.

Definition getFilterOptions (methods : list Method) : FilterOptions :=
  let yearsArray :=
    array_sort (λ a b, inject_Z (a - b)) (years_seen methods) in
  {| fo_modalities := default_sort (modalities_seen methods);
     fo_tasks := default_sort (tasks_seen methods);
     fo_evidenceTypes := default_sort (evidenceTypes_seen methods);
     fo_maturityLevels :=
       List.filter (λ m, bool_decide (m ∈ maturityLevels_seen methods))
         ["research"; "emerging"; "established"; "mature"];
     fo_yearRange :=
       {| ys_min := or_Z (yearsArray !! 0%nat) 2010;
          ys_max := or_Z (yearsArray !! (length yearsArray - 1)%nat) 2026 |} |}.

(** A value held by a counter object: a number, or a string, of which
    only that it is one is kept. *)
Inductive counter :=
  | Count (n : Z)
  | Text.

(** [counts[k] = (counts[k] || 0) + 1] on a counter object, given by its
    own properties.  Under a name that objects inherit, [counts[k]] finds
    a function (or, for [__proto__], [Object.prototype]), which is truthy:
    adding [1] to it makes a string.  Assigning that string creates an own
    property, except under [__proto__], whose setter ignores a string.  A
    string plus [1] is a string again. *)
Definition count_key (counts : gmap string counter) (k : string)
  : gmap string counter :=
  match counts !! k with
  | Some (Count n) => <[k := Count (or_Z (Some n) 0 + 1)]> counts
  | Some Text => <[k := Text]> counts
  | None =>
      if JS.inherited k then
        if (k =? "__proto__")%string then counts else <[k := Text]> counts
      else <[k := Count 1]> counts
  end.

Definition getStepCounts (methods : list Method) : gmap string counter :=
  foldl (λ counts method, count_key counts (m_pipeline_step method))
    ∅ methods.

(** ** data.js: lookups, related methods, statistics *)

(** A method as data.js reads it: the fields of [Method], its free-form
    tags and its explicit links. *)
Record Entry := {
  e_method : Method;
  e_tags : option (list string);
  e_related_method_ids : option (list string);
}.

Definition e_id (m : Entry) : string := m_id (e_method m).

(** The loaded document; data.js guards both arrays with [?.]. *)
Record Catalog := {
  c_pipeline_steps : option (list PipelineStep);
  c_methods : option (list Entry);
}.

(** [data.methods?.find((m) => m.id === id) || null] *)
Definition getMethodById (data : Catalog) (id : string) : option Entry :=
  c_methods data ≫= List.find (λ m, String.eqb (e_id m) id).

Definition getPipelineStepById (data : Catalog) (id : string)
  : option PipelineStep :=
  c_pipeline_steps data ≫= List.find (λ s, String.eqb (ps_id s) id).

(** An element of the result of [getRelatedMethods]: a copy of the
    method with its [relationship], and with [sharedTags] when it came
    through the shared-tags pass. *)
Record Related := {
  rel_entry : Entry;
  relationship : string;
  sharedTags : option Z;
}.

Definition rel_id (r : Related) : string := e_id (rel_entry r).

(** [if (!related.find((r) => r.id === m.id)) related.push(m)] *)
Definition push_new (related : list Related) (m : Related) : list Related :=
  if existsb (λ r, String.eqb (rel_id r) (rel_id m)) related then related
  else related ++ [m].

(** [(m.tags || []).filter((t) => methodTags.has(t)).length] *)
Definition shared_tag_count (methodTags : list string) (m : Entry) : Z :=
  Z.of_nat (length (List.filter (λ t, bool_decide (t ∈ methodTags))
                      (default [] (e_tags m)))).

Definition getRelatedMethods (data : Catalog) (methodId : string)
  : list Related :=
  match getMethodById data methodId with
  | None => []
  | Some method =>
      let all := default [] (c_methods data) in
      let linked :=
        omap (λ id,
                (λ m, {| rel_entry := m; relationship := "linked";
                         sharedTags := None |})
                <$> getMethodById data id)
          (default [] (e_related_method_ids method)) in
      let sameStep :=
        take 3
          (List.filter
             (λ m, negb (String.eqb (e_id m) methodId)
                   && String.eqb (m_pipeline_step (e_method m))
                        (m_pipeline_step (e_method method)))
             all) in
      let related1 :=
        foldl (λ related m,
                 push_new related
                   {| rel_entry := m; relationship := "same-step";
                      sharedTags := None |})
          linked sameStep in
      let methodTags := default [] (e_tags method) in
      let scored :=
        List.filter (λ p, 0 <? snd p)
          (map (λ m, (m, shared_tag_count methodTags m))
             (List.filter (λ m, negb (String.eqb (e_id m) methodId)) all)) in
      let byShared :=
        take 3 (array_sort (λ a b, inject_Z (snd b - snd a)) scored) in
      let related2 :=
        foldl (λ related p,
                 push_new related
                   {| rel_entry := fst p; relationship := "shared-tags";
                      sharedTags := Some (snd p) |})
          related1 byShared in
      take 6 related2
  end.

Record Statistics := {
  totalMethods : nat;
  stepCounts : gmap string counter;
  modalityCounts : gmap string counter;
  taskCounts : gmap string counter;
  maturityCounts : gmap string counter;
  yearCounts : gmap Z Z;
}.

(** The body of [methods.forEach] in [getStatistics], on the five
    counters. *)
Definition count_method (st : Statistics) (method : Method) : Statistics :=
  {| totalMethods := totalMethods st;
     stepCounts := count_key (stepCounts st) (m_pipeline_step method);
     modalityCounts :=
       foldl count_key (modalityCounts st) (default [] (m_modalities method));
     taskCounts := foldl count_key (taskCounts st) (default [] (m_tasks method));
     maturityCounts :=
       if JS.truthy_string (m_maturity method)
       then count_key (maturityCounts st) (default "" (m_maturity method))
       else maturityCounts st;
     yearCounts :=
       if JS.truthy_Z (year_of method)
       then
         let year := default 0 (year_of method) in
         <[year := or_Z (yearCounts st !! year) 0 + 1]> (yearCounts st)
       else yearCounts st |}.

Definition getStatistics (data : Catalog) : Statistics :=
  let methods := map e_method (default [] (c_methods data)) in
  foldl count_method
    {| totalMethods := length methods; stepCounts := ∅; modalityCounts := ∅;
       taskCounts := ∅; maturityCounts := ∅; yearCounts := ∅ |}
    methods.

(** ** data.js: validation *)

(** A method as [validateMethodsData] reads it: the four fields whose
    value it inspects, each possibly missing, and the names of the other
    fields that are present. *)
Record RawMethod := {
  raw_id : option string;
  raw_pipeline_step : option string;
  raw_modalities : option (list string);
  raw_tasks : option (list string);
  raw_fields : list string;
}.

Record RawData := {
  rd_metadata : bool;
  rd_pipeline_steps : option (list PipelineStep);
  rd_methods : option (list RawMethod);
}.

Definition requiredFields : list string := [
  "id"; "name"; "pipeline_step"; "short_description"; "algorithm_summary";
  "inputs"; "outputs"; "modalities"; "tasks"; "assumptions"; "limitations";
  "references"; "tags"; "created_at"; "updated_at"
].

Definition validPipelineSteps : list string := [
  "collect"; "preprocess"; "abstract_aggregate"; "correlate_cases";
  "enhance_visualization"; "apply_mining"
].

Definition validModalities : list string :=
  ["text"; "image"; "video"; "audio"; "sensor"; "mixed"].

Definition validTasks : list string := [
  "cleaning"; "chunking"; "fusion"; "abstraction"; "correlation";
  "uncertainty"; "visualization"; "discovery"; "conformance"; "prediction"
].

(** [!v] for a value that is an array or missing. *)
Definition absent {A} (v : option A) : bool :=
  match v with
  | Some _ => false
  | None => true
  end.

(** [method[field] === undefined] *)
Definition field_undefined (method : RawMethod) (field : string) : bool :=
  if (field =? "id")%string then absent (raw_id method)
  else if (field =? "pipeline_step")%string
  then absent (raw_pipeline_step method)
  else if (field =? "modalities")%string then absent (raw_modalities method)
  else if (field =? "tasks")%string then absent (raw_tasks method)
  else negb (bool_decide (field ∈ raw_fields method)).

(** The messages pushed to [errors], each as the data its template is
    filled with. *)
Inductive ValidationError :=
  | MissingMetadata
  | InvalidPipelineSteps
  | InvalidMethods
  | MissingField (index : nat) (id : string) (field : string)
  | InvalidPipelineStep (id : option string) (step : string)
  | InvalidModality (id : option string) (modality : string)
  | InvalidTask (id : option string) (task : string)
  | DuplicateId (id : option string).

(** The callback of [data.methods?.forEach] in [validateMethodsData]. *)
Definition validate_method (methods : list RawMethod) (index : nat)
    (method : RawMethod) : list ValidationError :=
  map (MissingField index
         (if JS.truthy_string (raw_id method) then default "" (raw_id method)
          else "unknown"))
    (List.filter (field_undefined method) requiredFields)
  ++ (if JS.truthy_string (raw_pipeline_step method)
         && negb (JS.includes validPipelineSteps
                    (default "" (raw_pipeline_step method)))
      then [InvalidPipelineStep (raw_id method)
              (default "" (raw_pipeline_step method))]
      else [])
  ++ map (InvalidModality (raw_id method))
       (List.filter (λ modality, negb (JS.includes validModalities modality))
          (default [] (raw_modalities method)))
  ++ map (InvalidTask (raw_id method))
       (List.filter (λ task, negb (JS.includes validTasks task))
          (default [] (raw_tasks method)))
  ++ (if (1 <? length (List.filter
                         (λ m, bool_decide (raw_id m = raw_id method))
                         methods))%nat
      then [DuplicateId (raw_id method)]
      else []).

Record Validation := {
  isValid : bool;
  errors : list ValidationError;
}.

Definition validateMethodsData (data : RawData) : Validation :=
  let errors :=
    (if negb (rd_metadata data) then [MissingMetadata] else [])
    ++ (if absent (rd_pipeline_steps data) then [InvalidPipelineSteps] else [])
    ++ (if absent (rd_methods data) then [InvalidMethods] else [])
    ++ match rd_methods data with
       | Some methods =>
           concat (imap (validate_method methods) methods)
       | None => []
       end in
  {| isValid := (length errors =? 0)%nat; errors := errors |}.

(** ** Components: paper links, the compare deep link, count badges *)

(** [formatPaperUrl] of the method list and the method detail. *)
Definition formatPaperUrl (doiOrUrl : option string) : option string :=
  if negb (JS.truthy_string doiOrUrl) then None
  else
    let s := default "" doiOrUrl in
    if String.prefix "http://" s || String.prefix "https://" s then Some s
    else if String.prefix "10." s then Some ("https://doi.org/" ++ s)%string
    else Some ("https://doi.org/" ++ s)%string.

(** [s.split(',')] *)
Fixpoint split_comma (s : string) : list string :=
  match s with
  | EmptyString => [""]
  | String c s' =>
      if Ascii.eqb c "," then "" :: split_comma s'
      else
        match split_comma s' with
        | piece :: pieces => String c piece :: pieces
        | [] => [String c ""]
        end
  end.

(** [a.join(',')] *)
Fixpoint join_comma (a : list string) : string :=
  match a with
  | [] => ""
  | [x] => x
  | x :: rest => (x ++ "," ++ join_comma rest)%string
  end.

(** [ComparePage]: the ids read from the query parameter [methods],
    [searchParams.get('methods')?.split(',').filter(Boolean) || []]. *)
Definition methodIds_of_query (param : option string) : list string :=
  match param with
  | Some s => List.filter (λ id, negb (String.eqb id "")) (split_comma s)
  | None => []
  end.

(** [handleCompare] of the compare bar: the value of the parameter
    [methods] it navigates to, if it navigates. *)
Definition handleCompare (compareMethodIds : list string) : option string :=
  if (2 <=? length compareMethodIds)%nat
  then Some (join_comma compareMethodIds)
  else None.

(** [ComparisonView]: the methods the ids resolve to,
    [methodIds.map((id) => getMethodById(data, id)).filter(Boolean)]. *)
Definition resolve_ids (data : Catalog) (methodIds : list string)
  : list Entry :=
  omap (getMethodById data) methodIds.

(** What the compare page plots for a query parameter: nothing when
    fewer than two ids are given or fewer than two resolve. *)
Definition comparePage (data : Catalog) (param : option string)
  : option (list (list JS.num)) :=
  let methodIds := methodIds_of_query param in
  if (length methodIds <? 2)%nat then None
  else
    let methods := resolve_ids data methodIds in
    if (2 <=? length methods)%nat
    then createComparisonVisualization (map e_method methods)
    else None.

(** PipelineViz.js: the counts shown on the stage cards and on the
    data-source circles. *)
Definition DATA_SOURCES : list string :=
  ["text"; "image"; "video"; "audio"; "sensor"; "realtime"].


Definition modalityCounts_of (methods : list Method) : gmap string Z :=
  let collectMethods :=
    List.filter (λ m, String.eqb (m_pipeline_step m) "collect") methods in
  foldl (λ counts source,
           <[source :=
               Z.of_nat (length (List.filter
                                   (λ m, from_option (λ l, JS.includes l source)
                                           false (m_modalities m))
                                   collectMethods))]> counts)
    ∅ DATA_SOURCES.

(** ** Definitions used in the further statements *)

(** The filters select nothing: every guard of the filter callback is
    off. *)
Definition no_selector (f : Filters) : bool :=
  negb (JS.truthy_string (pipelineStep f))
  && negb (selector_active (modalities f))
  && negb (selector_active (tasks f))
  && negb (selector_active (evidenceTypes f))
  && negb (selector_active (maturityLevels f))
  && from_option
       (λ r, negb (JS.truthy_Z (yr_min r)) && negb (JS.truthy_Z (yr_max r)))
       true (yearRange f).

(** An action that leaves the stage filter to the selection actions:
    every [setFilters] the components dispatch is one. *)
Definition keeps_stage (a : Action) : Prop :=
  match a with
  | SET_FILTERS payload => p_pipelineStep payload = None
  | _ => True
  end.

(** The selectors a click in the pipeline does not touch are off, and no
    search applies. *)
Definition no_other_selector (f : Filters) : bool :=
  negb (selector_active (tasks f))
  && negb (selector_active (evidenceTypes f))
  && negb (selector_active (maturityLevels f))
  && from_option
       (λ r, negb (JS.truthy_Z (yr_min r)) && negb (JS.truthy_Z (yr_max r)))
       true (yearRange f)
  && (length (JS.trim (searchQuery f)) <? 2)%nat.

(** The actions that touch neither the dataset, the index nor the
    filters. *)
Definition ui_only (a : Action) : bool :=
  match a with
  | SET_DATA _ | SET_SEARCH_INDEX _ | SET_FILTERS _ | RESET_FILTERS
  | SET_SELECTED_STEP _ | SET_SELECTED_MODALITY _ => false
  | _ => true
  end.

(** ** More sample data *)

Module Demo.

Definition steps : list PipelineStep := [
  {| ps_id := "collect"; ps_name := "Collect"; ps_order := 1 |};
  {| ps_id := "preprocess"; ps_name := "Pre-process"; ps_order := 2 |};
  {| ps_id := "apply_mining"; ps_name := "Mining"; ps_order := 6 |}
].

Definition dataset : Dataset := {|
  pipeline_steps := steps;
  methods_of := [Sample.m2015; Sample.m2020; Sample.also2015; Sample.undated];
|}.

(** The store once the index and the data have arrived. *)
Definition loaded : State :=
  dispatch_all [SET_SEARCH_INDEX Sample.no_match; SET_DATA dataset].

Definition entry (m : Method) (tags related : list string) : Entry :=
  {| e_method := m; e_tags := Some tags; e_related_method_ids := Some related |}.

Definition catalog : Catalog := {|
  c_pipeline_steps := Some steps;
  c_methods := Some [
    entry Sample.m2015 ["ocr"; "nlp"] ["m-2020"; "missing"];
    entry Sample.m2020 ["vision"; "ocr"] [];
    entry Sample.also2015 ["nlp"] [];
    entry Sample.undated ["vision"] ["m-2015"]
  ];
|}.

Definition raw (id : string) : RawMethod := {|
  raw_id := Some id;
  raw_pipeline_step := Some "collect";
  raw_modalities := Some ["text"; "sensor"];
  raw_tasks := Some ["discovery"];
  raw_fields := [
    "name"; "short_description"; "algorithm_summary"; "inputs"; "outputs";
    "assumptions"; "limitations"; "references"; "tags"; "created_at";
    "updated_at"
  ];
|}.

Definition document : RawData := {|
  rd_metadata := true;
  rd_pipeline_steps := Some steps;
  rd_methods := Some [raw "a"; raw "b"];
|}.

End Demo.

(** The number a method is ordered by under one of the three numeric sort
    keys. *)
Definition numericKey (sortBy : string) (m : Method) : Q :=
  if (sortBy =? "year")%string then inject_Z (or_Z (year_of m) 0)
  else if (sortBy =? "maturity")%string
  then inject_Z (default 0 (m_maturity m ≫= maturity_rank))
  else or_Q (m_searchScore m) 1.

(** The options the filters panel offers for one array filter. *)
Definition options_of (o : FilterOptions) (filterName : ArrayFilter)
  : list string :=
  match filterName with
  | F_modalities => fo_modalities o
  | F_tasks => fo_tasks o
  | F_maturityLevels => fo_maturityLevels o
  | F_evidenceTypes => fo_evidenceTypes o
  end.

(** The number of times a key occurs in a list of keys. *)
Definition occurrences (k : string) (keys : list string) : Z :=
  Z.of_nat (length (List.filter (String.eqb k) keys)).

(** The number a counter object holds under a key, [0] where it holds
    none, and the sum of the numbers it holds. *)
Definition counted (counts : gmap string counter) (k : string) : Z :=
  match counts !! k with
  | Some (Count n) => n
  | _ => 0
  end.

Definition total (counts : gmap string counter) : Z :=
  map_fold (λ _ v acc, match v with Count n => n + acc | Text => acc end)
    0 counts.

(** A name that is not one of the properties objects inherit: the keys
    for which an object literal behaves as a table. *)
Definition plain (k : string) : Prop := JS.inherited k = false.

(** A counter object all of whose values are positive numbers. *)
Definition counting (counts : gmap string counter) : Prop :=
  ∀ j c, counts !! j = Some c → ∃ v, c = Count v ∧ 0 < v.

(** A method whose sort key is a number: under the key ['maturity'], one
    whose maturity level does not name an inherited property. *)
Definition ranked (sortBy : string) (m : Method) : Prop :=
  sortBy = "maturity" → plain (JS.key (m_maturity m)).

(** A string without a comma. *)
Fixpoint comma_free (s : string) : bool :=
  match s with
  | EmptyString => true
  | String c s' => negb (Ascii.eqb c ",") && comma_free s'
  end.

(** * Properties *)

(** ** Filtering *)

Section FilterFacts.
Implicit Types (f : Filters) (m : Method) (sel tags : option (list string)).

Lemma selector_active_nonempty sel :
  selector_active sel = true ↔ Spec.nonempty sel.
Proof.
  unfold selector_active, Spec.nonempty. destruct sel as [[|x l]|]; simpl.
  - split; [discriminate|]. intros (l & [= <-] & H). by destruct H.
  - split; [|done]. intros _. by exists (x :: l).
  - split; [discriminate|]. by intros (l & ? & _).
Qed.

Lemma includes_true (a : list string) x : JS.includes a x = true ↔ x ∈ a.
Proof. unfold JS.includes. by rewrite bool_decide_eq_true. Qed.

Lemma stage_check f m :
  JS.truthy_string (pipelineStep f)
    && negb (bool_decide (Some (m_pipeline_step m) = pipelineStep f)) = false
  ↔ Spec.stage_ok f m.
Proof.
  unfold Spec.stage_ok, JS.truthy_string.
  destruct (pipelineStep f) as [s|]; simpl; [|by split].
  destruct (String.eqb_spec s "") as [->|Hs]; simpl.
  - split; [|done]. by intros _ s [= <-].
  - rewrite negb_false_iff, bool_decide_eq_true. split.
    + by intros [= ->] s' [= <-].
    + intros H. f_equal. by apply H.
Qed.

Lemma some_check sel tags :
  selector_active sel
    && JS.not_opt (JS.some_opt tags (JS.includes (selected sel))) = false
  ↔ (Spec.nonempty sel → Spec.intersects sel tags).
Proof.
  rewrite andb_false_iff, <- not_true_iff_false, selector_active_nonempty.
  unfold Spec.intersects, selected, JS.not_opt, JS.some_opt.
  destruct tags as [tags|]; simpl.
  - rewrite negb_false_iff, existsb_exists. split.
    + intros [Hn|(x & Hx & Hi)] Hne; [done|].
      exists x. apply includes_true in Hi. by rewrite <- list_elem_of_In in Hx.
    + intros H. destruct (selector_active sel) eqn:Ha.
      * apply selector_active_nonempty in Ha. destruct (H Ha) as (x & Hs & Ht).
        right. exists x. by rewrite includes_true, <- list_elem_of_In.
      * left. by rewrite <- selector_active_nonempty, Ha.
  - split.
    + by intros [Hn|?] Hne.
    + intros H. left. intros Hne. destruct (H Hne) as (x & _ & Hx).
      by apply elem_of_nil in Hx.
Qed.

Lemma member_check sel (v : option string) :
  selector_active sel
    && negb (from_option (JS.includes (selected sel)) false v) = false
  ↔ (Spec.nonempty sel → Spec.member sel v).
Proof.
  rewrite andb_false_iff, <- not_true_iff_false, selector_active_nonempty.
  unfold Spec.member, selected. destruct v as [v|]; simpl.
  - rewrite negb_false_iff, includes_true. split.
    + intros [Hn|Hi] Hne; [done|]. by exists v.
    + intros H. destruct (selector_active sel) eqn:Ha.
      * apply selector_active_nonempty in Ha.
        destruct (H Ha) as (x & [= <-] & Hx). by right.
      * left. by rewrite <- selector_active_nonempty, Ha.
  - split.
    + by intros [Hn|?] Hne.
    + intros H. left. intros Hne. by destruct (H Hne) as (x & ? & _).
Qed.
End FilterFacts.

Lemma year_test_true (f : Filters) (m : Method) :
  year_test (yearRange f) (year_of m) = true ↔ Spec.year_not_outside f m.
Proof.
  unfold year_test, Spec.year_not_outside, Spec.bound, JS.truthy_Z, JS.lt, JS.gt.
  destruct (yearRange f) as [[lo hi]|]; simpl; [|by split].
  destruct (year_of m) as [y|]; simpl.
  - split.
    + intros H r y' [= <-] [= <-]; simpl.
      split; intros n [-> Hn]; simpl in H;
        destruct (Z.eqb_spec n 0); try done; simpl in H.
      * destruct (Z.ltb_spec y n); [done|lia].
      * destruct (Z.ltb_spec n y); [|lia].
        by destruct (_ && _).
    + intros H. destruct (H _ y eq_refl eq_refl) as [Hlo Hhi]; simpl in *.
      assert ((match lo with Some n => negb (n =? 0) | None => false end
               && (y <? default 0 lo)) = false) as ->.
      { destruct lo as [n|]; [|done]; simpl.
        destruct (Z.eqb_spec n 0); [done|]; simpl.
        apply Z.ltb_ge. by apply Hlo. }
      assert ((match hi with Some n => negb (n =? 0) | None => false end
               && (default 0 hi <? y)) = false) as ->; [|done].
      destruct hi as [n|]; [|done]; simpl.
      destruct (Z.eqb_spec n 0); [done|]; simpl.
      apply Z.ltb_ge. by apply Hhi.
  - rewrite !andb_false_r. split; [|done]. by intros _ r y.
Qed.

Lemma keepMethod_true (f : Filters) (m : Method) :
  keepMethod f m = true ↔ Spec.categories_ok f m ∧ Spec.year_not_outside f m.
Proof.
  rewrite <- year_test_true.
  unfold Spec.categories_ok, Spec.modalities_ok, Spec.tasks_ok,
    Spec.evidence_ok, Spec.maturity_ok.
  rewrite <- stage_check, <- !some_check, <- !member_check.
  unfold keepMethod, year_test.
  repeat match goal with
  | |- context [if ?c then false else _] =>
      destruct c; [split; [discriminate | intros H; decompose [and] H; discriminate]|]
  end.
  destruct (yearRange f); repeat split; tauto.
Qed.

Lemma filterMethods_elem (methods : list Method) (f : Filters) (m : Method) :
  m ∈ filterMethods methods f ↔ m ∈ methods ∧ keepMethod f m = true.
Proof.
  unfold filterMethods. rewrite !list_elem_of_In. apply filter_In.
Qed.

Lemma applyFiltersAndSearch_working_set methods searchIndex f :
  applyFiltersAndSearch methods searchIndex f
  = filterMethods (working_set methods searchIndex f) f.
Proof.
  unfold applyFiltersAndSearch, working_set.
  destruct (_ && _); [|done]. by destruct (searchMethods _ _).
Qed.

Lemma filter_all {A} (p : A → bool) (l : list A) :
  (∀ x, x ∈ l → p x = true) → List.filter p l = l.
Proof.
  induction l as [|x l IH]; intros H; simpl; [done|].
  rewrite (H x) by left. f_equal. apply IH. intros y Hy. apply H. by right.
Qed.

(** ** Trimming and the length test of the search *)

Lemma trimStart_length (s : JS.str) : (length (JS.trimStart s) ≤ length s)%nat.
Proof.
  induction s as [|c s IH]; simpl; [done|]. destruct (JS.is_space c); simpl; lia.
Qed.

Lemma trim_length (s : JS.str) : (length (JS.trim s) ≤ length s)%nat.
Proof.
  unfold JS.trim, JS.trimEnd. rewrite length_reverse.
  etrans; [apply trimStart_length|]. rewrite length_reverse.
  apply trimStart_length.
Qed.

Lemma searchMethods_short (searchIndex : Fuse) (query : JS.str) :
  (length (JS.trim query) < 2)%nat → searchMethods searchIndex query = None.
Proof.
  intros H. unfold searchMethods.
  destruct (Nat.ltb_spec (length (JS.trim query)) 2); [|lia].
  by rewrite orb_true_r.
Qed.

Lemma searchMethods_long (searchIndex : Fuse) (query : JS.str) :
  (2 ≤ length (JS.trim query))%nat →
  searchMethods searchIndex query
  = Some (map annotate (search searchIndex (JS.trim query))).
Proof.
  intros H. unfold searchMethods, JS.truthy_str.
  pose proof (trim_length query).
  destruct (Nat.ltb_spec (length (JS.trim query)) 2); [lia|].
  destruct (Nat.eqb_spec (length query) 0); [lia|done].
Qed.

Lemma working_set_short methods searchIndex f :
  (length (JS.trim (searchQuery f)) < 2)%nat →
  working_set methods searchIndex f = methods.
Proof.
  intros H. unfold working_set.
  destruct (Nat.leb_spec 2 (length (JS.trim (searchQuery f)))); [lia|].
  by rewrite andb_false_r.
Qed.

Lemma working_set_long methods searchIndex f :
  (2 ≤ length (JS.trim (searchQuery f)))%nat →
  working_set methods searchIndex f
  = map annotate (search searchIndex (JS.trim (searchQuery f))).
Proof.
  intros H. unfold working_set, JS.truthy_str.
  rewrite searchMethods_long by done. pose proof (trim_length (searchQuery f)).
  destruct (Nat.leb_spec 2 (length (JS.trim (searchQuery f)))); [|lia].
  destruct (Nat.eqb_spec (length (searchQuery f)) 0); [lia|done].
Qed.

(** ** Filtering and searching *)

(** C5.  With every selector set empty, both year bounds null and an
    empty search query, [applyFiltersAndSearch] returns its input list:
    the same methods in the same order. *)
Theorem no_filters_returns_input (methods : list Method) (searchIndex : Fuse)
    (f : Filters) :
  pipelineStep f = None →
  default [] (modalities f) = [] →
  default [] (tasks f) = [] →
  default [] (evidenceTypes f) = [] →
  default [] (maturityLevels f) = [] →
  (∀ r, yearRange f = Some r → yr_min r = None ∧ yr_max r = None) →
  searchQuery f = [] →
  applyFiltersAndSearch methods searchIndex f = methods.
Proof.
  intros Hstep Hmod Htask Hev Hmat Hyear Hq.
  rewrite applyFiltersAndSearch_working_set, working_set_short
    by (rewrite Hq; simpl; lia).
  apply filter_all. intros m _. apply keepMethod_true.
  assert (∀ sel, default [] sel = [] → ¬ Spec.nonempty sel) as Hempty.
  { intros sel Hsel (l & -> & Hl). by destruct Hl. }
  repeat split.
  - intros s Hs. by rewrite Hstep in Hs.
  - intros H. by apply Hempty in H.
  - intros H. by apply Hempty in H.
  - intros H. by apply Hempty in H.
  - intros H. by apply Hempty in H.
  - intros lo [Hlo _]. destruct (Hyear _ H) as [Hmin _]. by rewrite Hmin in Hlo.
  - intros hi [Hhi _]. destruct (Hyear _ H) as [_ Hmax]. by rewrite Hmax in Hhi.
Qed.

Lemma no_filters_returns_input_witness :
  applyFiltersAndSearch [Sample.m2020; Sample.undated; Sample.m2015]
    Sample.no_match FILTER_DEFAULTS
  = [Sample.m2020; Sample.undated; Sample.m2015].
Proof.
  apply no_filters_returns_input; try reflexivity.
  intros r [= <-]. split; reflexivity.
Defined.

Lemma retained_keep methods searchIndex f m :
  keepMethod f m = true → retained methods searchIndex f m.
Proof.
  intros H. split; intros Hin.
  - by apply filterMethods_elem.
  - rewrite applyFiltersAndSearch_working_set. by apply filterMethods_elem.
Qed.

(** C1, at an input where the code breaks it.  The year test compares
    [method.references?.year] with the bounds and has no case for a year
    that is missing: [undefined < min] and [undefined > max] are both
    false.  So under the range 2016 to 2020 the method of 2015 is
    dropped, as it should be, while the method without a year is kept,
    by [filterMethods] and by [applyFiltersAndSearch]. *)
Theorem undated_method_passes_year_range :
  let f :=
    Sample.filters_with {| yr_min := Some 2016; yr_max := Some 2020 |} [] in
  year_of Sample.undated = None ∧
  filterMethods [Sample.m2015; Sample.undated; Sample.m2020] f
  = [Sample.undated; Sample.m2020] ∧
  applyFiltersAndSearch [Sample.m2015; Sample.undated; Sample.m2020]
    Sample.no_match f
  = [Sample.undated; Sample.m2020].
Proof. repeat split. Qed.

(** C4, at an input where the code breaks it: the same method without a
    year.  It does not satisfy the year category of a filter with the
    range 2015 to 2020, an absent year failing a bound that is set, yet
    with an empty query it is in the output of [applyFiltersAndSearch];
    it satisfies the five other categories. *)
Theorem undated_method_breaks_conjunction_law :
  let f := Sample.filters_with Sample.range15_20 [] in
  searchQuery f = [] ∧
  Sample.undated ∈ applyFiltersAndSearch [Sample.undated] Sample.no_match f ∧
  Spec.categories_ok f Sample.undated ∧
  ¬ Spec.year_in_range f Sample.undated ∧
  ¬ Spec.passes f Sample.undated.
Proof.
  cbv zeta.
  assert (¬ Spec.year_in_range (Sample.filters_with Sample.range15_20 [])
              Sample.undated) as Hyear.
  { intros Hyear. destruct (Hyear Sample.range15_20 eq_refl) as [Hlo _].
    destruct (Hlo 2015) as (y & Hy & _); [split; [reflexivity|lia]|].
    discriminate Hy. }
  split; [reflexivity|]. split; [left|]. split; [|split; [done|]].
  - assert (keepMethod (Sample.filters_with Sample.range15_20 [])
              Sample.undated = true) as Hkeep by reflexivity.
    by apply keepMethod_true in Hkeep as [Hcat _].
  - intros [_ H]. by apply Hyear.
Qed.

Lemma year_in_range_dated (f : Filters) (m : Method) (y : Z) :
  year_of m = Some y → Spec.year_in_range f m ↔ Spec.year_not_outside f m.
Proof.
  intros Hy. unfold Spec.year_in_range, Spec.year_not_outside. split.
  - intros H r y' Hr Hy'. rewrite Hy in Hy'. injection Hy' as <-.
    destruct (H r Hr) as [Hlo Hhi]. split.
    + intros lo Hb. destruct (Hlo lo Hb) as (y' & Hy' & Hle). congruence.
    + intros hi Hb. destruct (Hhi hi Hb) as (y' & Hy' & Hle). congruence.
  - intros H r Hr. destruct (H r y Hr Hy) as [Hlo Hhi]. split.
    + intros lo Hb. exists y. split; [done|by apply Hlo].
    + intros hi Hb. exists y. split; [done|by apply Hhi].
Qed.

(** X29.  For a method that has a year, the filter is the conjunction
    the specification states: the method is kept by [filterMethods], and
    with an empty query by [applyFiltersAndSearch], exactly when it is
    in the input and satisfies every category whose selector is not
    empty, the year lying within the bounds that are set.  Both bounds
    are inclusive: in a range whose bounds are in order, a method that
    passes the other categories is retained when its year equals [min]
    or [max]. *)
Theorem dated_methods_follow_the_law (methods : list Method)
    (searchIndex : Fuse) (f : Filters) (m : Method) (y : Z) :
  year_of m = Some y → y ≠ 0 →
  (m ∈ filterMethods methods f ↔ m ∈ methods ∧ Spec.passes f m) ∧
  (searchQuery f = [] →
   m ∈ applyFiltersAndSearch methods searchIndex f
   ↔ m ∈ methods ∧ Spec.passes f m) ∧
  (∀ r, yearRange f = Some r →
        Spec.categories_ok f m →
        Spec.bound (yr_min r) y ∨ Spec.bound (yr_max r) y →
        (∀ lo hi, Spec.bound (yr_min r) lo → Spec.bound (yr_max r) hi →
                  lo ≤ hi) →
        retained methods searchIndex f m).
Proof.
  intros Hy _.
  assert (m ∈ filterMethods methods f ↔ m ∈ methods ∧ Spec.passes f m)
    as Hfilter.
  { rewrite filterMethods_elem, keepMethod_true. unfold Spec.passes.
    by rewrite (year_in_range_dated f m y Hy). }
  split; [done|]. split.
  - intros Hq.
    rewrite applyFiltersAndSearch_working_set, working_set_short
      by (rewrite Hq; simpl; lia).
    done.
  - intros r Hr Hcat Hb Hwf. apply retained_keep, keepMethod_true.
    split; [done|].
    intros r' y' Hr' Hy'. rewrite Hr in Hr'. rewrite Hy in Hy'.
    injection Hr' as <-. injection Hy' as <-. unfold Spec.bound in *. split.
    + intros lo Hlo. destruct Hb as [[Hb _]|Hb].
      * destruct Hlo as [Hlo _]. rewrite Hb in Hlo. injection Hlo as <-. lia.
      * by apply Hwf.
    + intros hi Hhi. destruct Hb as [Hb|[Hb _]].
      * by apply Hwf.
      * destruct Hhi as [Hhi _]. rewrite Hb in Hhi. injection Hhi as <-. lia.
Qed.

Lemma dated_methods_follow_the_law_witness :
  Sample.m2015
    ∈ filterMethods [Sample.m2020; Sample.m2015]
        (Sample.filters_with Sample.range15_20 []) ∧
  Sample.m2020
    ∈ filterMethods [Sample.m2020; Sample.m2015]
        (Sample.filters_with Sample.range15_20 []).
Proof.
  assert (∀ m, keepMethod (Sample.filters_with Sample.range15_20 []) m = true →
            Spec.categories_ok (Sample.filters_with Sample.range15_20 []) m)
    as Hcat by (intros m Hm; by apply keepMethod_true in Hm as [? _]).
  assert (∀ lo hi, Spec.bound (Some 2015) lo → Spec.bound (Some 2020) hi → lo ≤ hi)
    as Hwf by (intros lo hi [[= <-] _] [[= <-] _]; lia).
  assert (2015 ≠ 0) as H2015 by lia.
  assert (2020 ≠ 0) as H2020 by lia.
  split.
  - destruct (dated_methods_follow_the_law [Sample.m2020; Sample.m2015]
                Sample.no_match (Sample.filters_with Sample.range15_20 [])
                Sample.m2015 2015 eq_refl H2015) as (_ & _ & Hyear).
    apply (Hyear Sample.range15_20 eq_refl (Hcat Sample.m2015 eq_refl));
      [|exact Hwf|right; left].
    left. split; [reflexivity|lia].
  - destruct (dated_methods_follow_the_law [Sample.m2020; Sample.m2015]
                Sample.no_match (Sample.filters_with Sample.range15_20 [])
                Sample.m2020 2020 eq_refl H2020) as (_ & _ & Hyear).
    apply (Hyear Sample.range15_20 eq_refl (Hcat Sample.m2020 eq_refl));
      [|exact Hwf|left].
    right. split; [reflexivity|lia].
Defined.

(** C9.  A query whose trimmed length is below 2 makes [searchMethods]
    return [null] and [applyFiltersAndSearch] filter the full list
    given; a query of trimmed length at least 2 for which the index finds
    no match makes the search return the empty list, which is not the
    [null] sentinel, and the result is empty. *)
Theorem search_sentinel (searchIndex : Fuse) (query : JS.str) :
  ((length (JS.trim query) < 2)%nat →
   searchMethods searchIndex query = None ∧
   ∀ methods f, searchQuery f = query →
     working_set methods searchIndex f = methods ∧
     applyFiltersAndSearch methods searchIndex f = filterMethods methods f) ∧
  ((2 ≤ length (JS.trim query))%nat →
   search searchIndex (JS.trim query) = [] →
   searchMethods searchIndex query = Some [] ∧
   searchMethods searchIndex query ≠ None ∧
   ∀ methods f, searchQuery f = query →
     applyFiltersAndSearch methods searchIndex f = []).
Proof.
  split.
  - intros Hlen. split; [by apply searchMethods_short|].
    intros methods f <-.
    by rewrite applyFiltersAndSearch_working_set, working_set_short.
  - intros Hlen Hnone. rewrite searchMethods_long, Hnone by done.
    repeat split; [done|].
    intros methods f <-.
    by rewrite applyFiltersAndSearch_working_set, working_set_long, Hnone.
Qed.

Lemma search_sentinel_witness :
  searchMethods Sample.no_match (JS.of_string " a ") = None ∧
  searchMethods Sample.no_match (JS.of_string "abc") = Some [].
Proof.
  split.
  - apply (search_sentinel Sample.no_match (JS.of_string " a ")).
    vm_compute. lia.
  - apply (search_sentinel Sample.no_match (JS.of_string "abc"));
      [vm_compute; lia|reflexivity].
Defined.

(** ** The store *)

(** C7.  [setSelectedStep(stepId)] sets the stage filter to [stepId] and
    clears the modality selector and the [selectedModality] field; after
    [setSelectedModality('image')], [setSelectedStep('preprocess')]
    leaves the stage filter at [preprocess] and no modality selected. *)
Theorem setSelectedStep_clears_modality (state : State) (stepId : option string) :
  let s1 := appReducer state (actions.setSelectedStep stepId) in
  let s2 := appReducer
              (appReducer state (actions.setSelectedModality (Some "image")))
              (actions.setSelectedStep (Some "preprocess")) in
  (pipelineStep (filters s1) = stepId ∧
   selectedStep s1 = stepId ∧
   modalities (filters s1) = Some [] ∧
   selectedModality s1 = None) ∧
  (pipelineStep (filters s2) = Some "preprocess" ∧
   modalities (filters s2) = Some [] ∧
   selector_active (modalities (filters s2)) = false ∧
   selectedModality s2 = None).
Proof. by destruct state. Qed.

(** C2, as it holds of the code.  [setSelectedModality(modalityId)]
    always puts the stage selector on [collect]; with a non-empty
    [modalityId] the modality selector becomes the singleton of it, and
    with [null] (or the empty string) the modality selector is cleared
    while the stage stays [collect]. *)
Theorem setSelectedModality_forces_collect (state : State)
    (modalityId : option string) :
  let s := appReducer state (actions.setSelectedModality modalityId) in
  pipelineStep (filters s) = Some "collect" ∧
  selectedStep s = Some "collect" ∧
  selectedModality s = modalityId ∧
  (∀ id, modalityId = Some id → id ≠ "" → modalities (filters s) = Some [id]) ∧
  (modalityId = None ∨ modalityId = Some "" → modalities (filters s) = Some []).
Proof.
  destruct state; simpl. repeat split.
  - intros id -> Hid. simpl. by destruct (String.eqb_spec id "").
  - by intros [->| ->].
Qed.

Lemma setSelectedModality_forces_collect_witness :
  modalities (filters (appReducer initialState
                         (actions.setSelectedModality (Some "image"))))
  = Some ["image"].
Proof.
  destruct (setSelectedModality_forces_collect initialState (Some "image"))
    as (_ & _ & _ & Hsingle & _).
  apply Hsingle; [reflexivity|discriminate].
Defined.

(** C2 as stated fails: [setSelectedModality(null)] does not clear the
    stage selection. *)
Lemma setSelectedModality_null_keeps_stage :
  ¬ (∀ state : State,
       let s := appReducer state (actions.setSelectedModality None) in
       pipelineStep (filters s) = None ∧ selectedStep s = None ∧
       modalities (filters s) = Some []).
Proof. intros H. by destruct (H initialState) as [? _]. Qed.

Lemma toggle_compare_remove (current : list string) (methodId : string) :
  List.filter (λ id, negb (String.eqb id methodId)) current
  = filter (λ id, id ≠ methodId) current.
Proof.
  induction current as [|x l IH]; [done|]. simpl. rewrite filter_cons, IH.
  destruct (String.eqb_spec x methodId); by case_decide.
Qed.

Lemma remove_present_length (l : list string) (x : string) :
  NoDup l → x ∈ l →
  S (length (List.filter (λ id, negb (String.eqb id x)) l)) = length l.
Proof.
  induction 1 as [|y l Hy Hnd IH]; intros Hin; [by apply elem_of_nil in Hin|].
  simpl. destruct (String.eqb_spec y x) as [->|Hyx]; simpl.
  - f_equal. f_equal. apply filter_all. intros z Hz.
    destruct (String.eqb_spec z x) as [->|]; done.
  - f_equal. apply IH. apply elem_of_cons in Hin as [->|]; done.
Qed.

Lemma toggle_compare_inv (current : list string) (methodId : string) :
  NoDup current → (length current ≤ 3)%nat →
  NoDup (toggle_compare current methodId) ∧
  (length (toggle_compare current methodId) ≤ 3)%nat.
Proof.
  intros Hnd Hlen. unfold toggle_compare.
  destruct (JS.includes current methodId) eqn:Hin.
  - rewrite toggle_compare_remove. split; [by apply NoDup_filter|].
    etrans; [apply length_filter|done].
  - apply not_true_iff_false in Hin. rewrite includes_true in Hin.
    destruct (Nat.ltb_spec (length current) 3); [|done]. split.
    + apply NoDup_app. repeat split; [done| |apply NoDup_singleton].
      intros x Hx ->%list_elem_of_singleton. done.
    + rewrite length_app. simpl. lia.
Qed.

Lemma appReducer_compare_inv (s : State) (a : Action) :
  compare_inv s → compare_inv (appReducer s a).
Proof.
  unfold compare_inv. destruct s, a; simpl; try done.
  - intros [? ?]. by apply toggle_compare_inv.
  - intros _. split; [apply NoDup_nil_2|lia].
Qed.

Lemma dispatch_all_compare_inv (acts : list Action) :
  compare_inv (dispatch_all acts).
Proof.
  unfold dispatch_all.
  assert (compare_inv initialState) as H0 by (split; [apply NoDup_nil_2|simpl; lia]).
  revert H0. generalize initialState.
  induction acts as [|a acts IH]; intros s Hs; simpl; [done|].
  by apply IH, appReducer_compare_inv.
Qed.

(** C6.  In every state of the store (the state reached from the
    initial one by any sequence of actions) the compare set has at most
    three ids.  [toggleCompareMethod] with an id of the set removes it,
    the size going down by one; with a new id and fewer than three ids it
    appends the id; with a new id and three ids it changes nothing. *)
Theorem compare_set_bounded (acts : list Action) (methodId : string) :
  let s := dispatch_all acts in
  let s' := appReducer s (actions.toggleCompareMethod methodId) in
  (length (compareMethodIds s) ≤ 3)%nat ∧
  (length (compareMethodIds s') ≤ 3)%nat ∧
  (methodId ∈ compareMethodIds s →
     (methodId ∉ compareMethodIds s') ∧
     (∀ id, id ≠ methodId → id ∈ compareMethodIds s → id ∈ compareMethodIds s') ∧
     (S (length (compareMethodIds s')) = length (compareMethodIds s))) ∧
  (methodId ∉ compareMethodIds s → (length (compareMethodIds s) < 3)%nat →
     compareMethodIds s' = compareMethodIds s ++ [methodId]) ∧
  (methodId ∉ compareMethodIds s → length (compareMethodIds s) = 3%nat →
     compareMethodIds s' = compareMethodIds s).
Proof.
  intros s s'.
  destruct (dispatch_all_compare_inv acts) as [Hnd Hlen]. fold s in Hnd, Hlen.
  assert (compareMethodIds s' = toggle_compare (compareMethodIds s) methodId)
    as -> by (unfold s'; by destruct s).
  split; [done|]. split; [by apply toggle_compare_inv|].
  unfold toggle_compare. split; [|split].
  - intros Hin. pose proof Hin as Hin'. apply includes_true in Hin' as ->.
    split; [|split].
    + rewrite toggle_compare_remove, list_elem_of_filter. tauto.
    + intros id Hid Hid'. rewrite toggle_compare_remove. by apply list_elem_of_filter.
    + by apply remove_present_length.
  - intros Hnin Hlt. rewrite <- includes_true in Hnin.
    apply not_true_is_false in Hnin as ->.
    by destruct (Nat.ltb_spec (length (compareMethodIds s)) 3); [|lia].
  - intros Hnin Heq. rewrite <- includes_true in Hnin.
    apply not_true_is_false in Hnin as ->.
    by destruct (Nat.ltb_spec (length (compareMethodIds s)) 3); [lia|].
Qed.

Lemma compare_set_bounded_witness :
  compareMethodIds
    (dispatch_all (map actions.toggleCompareMethod ["a"; "b"; "c"; "d"]))
  = ["a"; "b"; "c"] ∧
  length (compareMethodIds
    (dispatch_all (map actions.toggleCompareMethod ["a"; "b"; "c"; "b"])))
  = 2%nat.
Proof.
  split.
  - destruct (compare_set_bounded
                (map actions.toggleCompareMethod ["a"; "b"; "c"]) "d")
      as (_ & _ & _ & _ & Hfull).
    apply Hfull; [|reflexivity].
    apply not_elem_of_cons. split; [discriminate|].
    apply not_elem_of_cons. split; [discriminate|].
    apply not_elem_of_cons. split; [discriminate|]. apply not_elem_of_nil.
  - destruct (compare_set_bounded
                (map actions.toggleCompareMethod ["a"; "b"; "c"]) "b")
      as (_ & _ & Hremove & _).
    destruct Hremove as (_ & _ & Hsize); [right; left|].
    exact (Nat.succ_inj _ 2%nat Hsize).
Defined.

(** ** Sorting *)

Section ArraySortFacts.
Context {A : Type} (compareFn : A → A → Q).

Lemma insert_before_perm (x : A) (l : list A) :
  insert_before compareFn x l ≡ₚ x :: l.
Proof.
  induction l as [|y l IH]; simpl; [done|].
  destruct (Qlt_le_dec 0 (compareFn x y)); [|done].
  rewrite IH. apply Permutation_swap.
Qed.

Lemma array_sort_perm (l : list A) : array_sort compareFn l ≡ₚ l.
Proof.
  induction l as [|x l IH]; simpl; [done|].
  by rewrite insert_before_perm, IH.
Qed.

(** Stability.  Take a class [P] of elements of the array none of which
    the comparator puts strictly after another one.  Sorting leaves the
    elements of the class in their order of input. *)
Section Stable.
Variable P : A → bool.

Lemma insert_before_filter (x : A) (l : list A) :
  (∀ y, y ∈ l → P x = true → P y = true → ¬ (0 < compareFn x y)%Q) →
  List.filter P (insert_before compareFn x l) = List.filter P (x :: l).
Proof.
  induction l as [|y l IH]; intros Htied; [done|].
  cbn [insert_before].
  destruct (Qlt_le_dec 0 (compareFn x y)) as [Hlt|]; [|done].
  cbn [List.filter] in *. rewrite IH by (intros z Hz; apply Htied; by right).
  destruct (P x) eqn:Hx, (P y) eqn:Hy; try done.
  destruct (Htied y); [left|done..].
Qed.

Lemma array_sort_filter (l : list A) :
  (∀ x y, x ∈ l → y ∈ l → P x = true → P y = true →
          ¬ (0 < compareFn x y)%Q) →
  List.filter P (array_sort compareFn l) = List.filter P l.
Proof.
  induction l as [|x l IH]; intros Htied; [done|].
  cbn [array_sort foldr]. fold (array_sort compareFn l).
  rewrite insert_before_filter.
  - cbn [List.filter]. rewrite IH; [done|].
    intros y z Hy Hz. apply Htied; by right.
  - intros y Hy. rewrite array_sort_perm in Hy. apply Htied; [left|by right].
Qed.
End Stable.

(** Order.  When the comparator is the difference of a numeric key,
    the result is in non-decreasing order of the key. *)
Section Ordered.
Variable key : A → Q.
Hypothesis compareFn_key : ∀ x y, (compareFn x y == key x - key y)%Q.

Let by_key (x y : A) : Prop := (key x <= key y)%Q.

Lemma insert_before_sorted (x : A) (l : list A) :
  StronglySorted by_key l → StronglySorted by_key (insert_before compareFn x l).
Proof.
  induction 1 as [|y l Hl IH Hy]; simpl.
  - repeat constructor.
  - pose proof (compareFn_key x y) as Hxy.
    destruct (Qlt_le_dec 0 (compareFn x y)) as [Hlt|Hle].
    + constructor; [done|]. rewrite insert_before_perm.
      constructor; [|done]. unfold by_key. lra.
    + constructor; [by constructor|].
      constructor; [unfold by_key; lra|].
      eapply Forall_impl; [exact Hy|]. unfold by_key. intros z Hz. simpl in Hz. lra.
Qed.

Lemma array_sort_sorted (l : list A) :
  StronglySorted by_key (array_sort compareFn l).
Proof.
  induction l as [|x l IH]; simpl; [constructor|].
  by apply insert_before_sorted.
Qed.

Lemma array_sort_lookup_le (l : list A) (i j : nat) (x y : A) :
  (i < j)%nat →
  array_sort compareFn l !! i = Some x →
  array_sort compareFn l !! j = Some y →
  (key x <= key y)%Q.
Proof.
  generalize (array_sort_sorted l). generalize (array_sort compareFn l).
  intros s Hs. revert i j.
  induction Hs as [|z s Hs IH Hz]; intros i j Hij Hi Hj; [done|].
  destruct j as [|j]; [lia|]. destruct i as [|i]; simpl in *.
  - injection Hi as ->. rewrite Forall_forall in Hz.
    apply Hz. by eapply list_elem_of_lookup_2.
  - apply (IH i j); [lia|done..].
Qed.
End Ordered.

(** The same, for a comparator that is the difference of the key on the
    elements of the array. *)
Section OrderedOn.
Variable key : A → Q.

Let by_key (x y : A) : Prop := (key x <= key y)%Q.

Lemma insert_before_sorted_on (x : A) (l : list A) :
  (∀ y, y ∈ l → (compareFn x y == key x - key y)%Q) →
  StronglySorted by_key l → StronglySorted by_key (insert_before compareFn x l).
Proof.
  intros Hkey Hl. induction Hl as [|y l Hl IH Hy]; simpl.
  - repeat constructor.
  - pose proof (Hkey y ltac:(left)) as Hxy.
    destruct (Qlt_le_dec 0 (compareFn x y)) as [Hlt|Hle].
    + constructor; [apply IH; intros z Hz; apply Hkey; by right|].
      rewrite insert_before_perm.
      constructor; [|done]. unfold by_key. lra.
    + constructor; [by constructor|].
      constructor; [unfold by_key; lra|].
      eapply Forall_impl; [exact Hy|]. unfold by_key. intros z Hz. simpl in Hz. lra.
Qed.

Lemma array_sort_sorted_on (l : list A) :
  (∀ x y, x ∈ l → y ∈ l → (compareFn x y == key x - key y)%Q) →
  StronglySorted by_key (array_sort compareFn l).
Proof.
  induction l as [|x l IH]; intros Hkey; simpl; [constructor|].
  apply insert_before_sorted_on.
  - intros y Hy. rewrite array_sort_perm in Hy. apply Hkey; [left|by right].
  - apply IH. intros y z Hy Hz. apply Hkey; by right.
Qed.

Lemma array_sort_lookup_le_on (l : list A) (i j : nat) (x y : A) :
  (∀ x y, x ∈ l → y ∈ l → (compareFn x y == key x - key y)%Q) →
  (i < j)%nat →
  array_sort compareFn l !! i = Some x →
  array_sort compareFn l !! j = Some y →
  (key x <= key y)%Q.
Proof.
  intros Hkey. generalize (array_sort_sorted_on l Hkey).
  generalize (array_sort compareFn l).
  intros s Hs. revert i j.
  induction Hs as [|z s Hs IH Hz]; intros i j Hij Hi Hj; [done|].
  destruct j as [|j]; [lia|]. destruct i as [|i]; simpl in *.
  - injection Hi as ->. rewrite Forall_forall in Hz.
    apply Hz. by eapply list_elem_of_lookup_2.
  - apply (IH i j); [lia|done..].
Qed.
End OrderedOn.
End ArraySortFacts.

Lemma codeUnitCompare_0 (s t : string) : codeUnitCompare s t = 0 ↔ s = t.
Proof.
  unfold codeUnitCompare. split.
  - destruct (String.compare s t) eqn:Hc; [|discriminate..].
    intros _. by apply String.compare_eq_iff.
  - intros <-. pose proof (String.compare_antisym s s) as H.
    destruct (String.compare s s); [done|discriminate..].
Qed.

Lemma inject_Z_0 (z : Z) : (inject_Z z == 0)%Q ↔ z = 0.
Proof. apply (inject_Z_injective z 0). Qed.

(** Lookups in the rank tables. *)
Lemma maturityOrder_lookup (level : string) :
  maturityOrder !! level = maturity_rank level.
Proof.
  unfold maturityOrder, maturity_rank.
  rewrite !lookup_insert, lookup_singleton.
  repeat (case_decide; [subst; reflexivity|]).
  repeat match goal with
  | |- context [String.eqb ?a ?b] => destruct (String.eqb_spec a b); [congruence|]
  end. done.
Qed.

Lemma get_plain (o : gmap string Z) (k : string) :
  plain k →
  JS.get o k = match o !! k with Some n => JS.Own n | None => JS.Undefined end.
Proof. unfold plain, JS.get. by intros ->. Qed.

Lemma maturity_operand_ranked (m : Method) :
  plain (JS.key (m_maturity m)) →
  maturity_operand m = Some (default 0 (m_maturity m ≫= maturity_rank)).
Proof.
  intros Hplain. unfold maturity_operand.
  rewrite get_plain, maturityOrder_lookup by done.
  destruct (m_maturity m) as [level|]; simpl; [|done].
  destruct (maturity_rank level) as [n|]; simpl; [|done].
  by destruct (Z.eqb_spec n 0) as [->|].
Qed.

Section SortMethodsFacts.
Variable localeCompare : string → string → Z.

(** ECMAScript requires [localeCompare] to be a consistent comparator;
    of that, only what it says of ties is used. *)
Hypothesis localeCompare_refl : ∀ s, localeCompare s s = 0.
Hypothesis localeCompare_sym :
  ∀ s t, localeCompare s t = 0 → localeCompare t s = 0.
Hypothesis localeCompare_trans :
  ∀ s t u, localeCompare s t = 0 → localeCompare t u = 0 →
           localeCompare s u = 0.

(** The comparison of two methods whose sort keys are numbers. *)
Lemma comparison_ranked (sortBy : string) (a b : Method) :
  ranked sortBy a → ranked sortBy b →
  comparison localeCompare sortBy a b
  = if (sortBy =? "name")%string then
      inject_Z (localeCompare (m_name a) (m_name b))
    else if (sortBy =? "year")%string then
      inject_Z (or_Z (year_of a) 0 - or_Z (year_of b) 0)
    else if (sortBy =? "maturity")%string then
      inject_Z (default 0 (m_maturity a ≫= maturity_rank)
                - default 0 (m_maturity b ≫= maturity_rank))
    else if (sortBy =? "pipeline_step")%string then
      inject_Z (localeCompare (m_pipeline_step a) (m_pipeline_step b))
    else if (sortBy =? "searchScore")%string then
      (or_Q (m_searchScore a) 1 - or_Q (m_searchScore b) 1)%Q
    else 0%Q.
Proof.
  intros Ha Hb. unfold comparison.
  destruct (String.eqb_spec sortBy "maturity") as [->|Hne].
  - simpl. by rewrite !maturity_operand_ranked by auto.
  - destruct (sortBy =? "name")%string; [done|].
    by destruct (sortBy =? "year")%string.
Qed.

Lemma tied_class (sortBy : string) (a x y : Method) :
  ranked sortBy a → ranked sortBy x → ranked sortBy y →
  tied localeCompare sortBy a x = true →
  tied localeCompare sortBy a y = true →
  (comparison localeCompare sortBy x y == 0)%Q.
Proof.
  intros Ha Hx Hy. unfold tied. rewrite !comparison_ranked by done.
  rewrite !Qeq_bool_iff.
  repeat match goal with
  | |- context [if ?c then _ else _] => destruct c
  end; rewrite ?inject_Z_0; try (intros; lia); try (intros; lra).
  - intros Hax Hay. eauto.
  - intros Hax Hay. eauto.
Qed.

Lemma tied_refl (sortBy : string) (a : Method) :
  tied localeCompare sortBy a a = true.
Proof.
  unfold tied, comparison. rewrite Qeq_bool_iff.
  repeat match goal with
  | |- context [if ?c then _ else _] => destruct c
  end; try destruct (maturity_operand a);
    rewrite ?inject_Z_0; try done; try lia; try lra.
Qed.

Lemma comparator_desc (sortBy : string) (a b : Method) :
  (comparator localeCompare sortBy "desc" a b
   == - comparator localeCompare sortBy "asc" a b)%Q.
Proof. unfold comparator. simpl. reflexivity. Qed.

Lemma sortMethods_tied (methods : list Method) (sortBy order : string)
    (a : Method) :
  Forall (ranked sortBy) methods → ranked sortBy a →
  List.filter (tied localeCompare sortBy a)
    (sortMethods localeCompare methods sortBy order)
  = List.filter (tied localeCompare sortBy a) methods.
Proof.
  intros Hall Ha. rewrite Forall_forall in Hall.
  apply array_sort_filter. intros x y Hx Hy Htx Hty.
  pose proof (tied_class sortBy a x y Ha (Hall x Hx) (Hall y Hy) Htx Hty) as H0.
  unfold comparator. destruct (order =? "desc")%string; lra.
Qed.
End SortMethodsFacts.

Lemma sortMethods_ref_spec (localeCompare : string → string → Z)
    (σ : gmap loc (list Method)) (src : loc) (arr : list Method)
    (sortBy order : string) :
  σ !! src = Some arr →
  ∃ dst σ',
    sortMethods_ref localeCompare σ src sortBy order = Some (dst, σ') ∧
    dst ≠ src ∧
    σ' !! dst = Some (sortMethods localeCompare arr sortBy order) ∧
    ∀ l, l ≠ dst → σ' !! l = σ !! l.
Proof.
  intros Hsrc. set (dst := fresh (dom σ)).
  assert (dst ∉ dom σ) as Hfresh by apply is_fresh.
  assert (dst ≠ src) as Hne.
  { intros ->. apply Hfresh. apply elem_of_dom. by exists arr. }
  exists dst, (<[dst := sortMethods localeCompare arr sortBy order]> σ).
  repeat split; [|done|by rewrite lookup_insert_eq|].
  - unfold sortMethods_ref, spread, sort_in_place. rewrite Hsrc. simpl.
    fold dst. rewrite lookup_insert_eq. simpl. by rewrite insert_insert_eq.
  - intros l Hl. by rewrite lookup_insert_ne.
Qed.


(** X30.  [sortMethods] is stable for every key and both orders on
    methods whose sort key is a number, which under the key ['maturity']
    are those whose level names no inherited property (no level of the
    scale does): the methods that tie with any given method come out in
    their order of input.  For every input, ['desc'] negates the
    comparator and nothing more, and the result is a rearrangement of
    the input, written to a fresh array, while the array passed in keeps
    its contents.  ([localeCompare] is taken to be a consistent
    comparator, as ECMAScript requires.) *)
Theorem sortMethods_stable (localeCompare : string → string → Z)
    (methods : list Method) (sortBy order : string) :
  (∀ s, localeCompare s s = 0) →
  (∀ s t, localeCompare s t = 0 → localeCompare t s = 0) →
  (∀ s t u, localeCompare s t = 0 → localeCompare t u = 0 →
            localeCompare s u = 0) →
  Forall (ranked sortBy) methods →
  (∀ a, ranked sortBy a →
        tied localeCompare sortBy a a = true ∧
        List.filter (tied localeCompare sortBy a)
          (sortMethods localeCompare methods sortBy order)
        = List.filter (tied localeCompare sortBy a) methods) ∧
  (∀ a b, (comparator localeCompare sortBy "desc" a b
           == - comparator localeCompare sortBy "asc" a b)%Q) ∧
  sortMethods localeCompare methods sortBy order ≡ₚ methods ∧
  (∀ σ src, σ !! src = Some methods →
     ∃ dst σ',
       sortMethods_ref localeCompare σ src sortBy order = Some (dst, σ') ∧
       dst ≠ src ∧
       σ' !! dst = Some (sortMethods localeCompare methods sortBy order) ∧
       σ' !! src = Some methods).
Proof.
  intros Hrefl Hsym Htrans Hall. split; [|split; [|split]].
  - intros a Ha. split; [by apply tied_refl|by apply sortMethods_tied].
  - apply comparator_desc.
  - apply array_sort_perm.
  - intros σ src Hsrc.
    destruct (sortMethods_ref_spec localeCompare σ src methods sortBy order Hsrc)
      as (dst & σ' & Hrun & Hne & Hdst & Hframe).
    exists dst, σ'. repeat split; [done..|]. by rewrite Hframe.
Qed.

Lemma sortMethods_stable_witness :
  List.filter
    (tied codeUnitCompare "maturity" (Sample.leveled "a" "established"))
    (sortMethods codeUnitCompare
       [Sample.leveled "a" "established"; Sample.leveled "b" "mature";
        Sample.leveled "c" "established"; Sample.leveled "d" "unheard-of"]
       "maturity" "desc")
  = [Sample.leveled "a" "established"; Sample.leveled "c" "established"].
Proof.
  assert (Forall (ranked "maturity")
            [Sample.leveled "a" "established"; Sample.leveled "b" "mature";
             Sample.leveled "c" "established"; Sample.leveled "d" "unheard-of"])
    as Hall by (repeat constructor).
  destruct (sortMethods_stable codeUnitCompare
              [Sample.leveled "a" "established"; Sample.leveled "b" "mature";
               Sample.leveled "c" "established"; Sample.leveled "d" "unheard-of"]
              "maturity" "desc")
    as [Hstable _].
  - intros s. by apply codeUnitCompare_0.
  - intros s t Hst. apply codeUnitCompare_0. symmetry. by apply codeUnitCompare_0.
  - intros s t u Hst Htu. apply codeUnitCompare_0.
    apply codeUnitCompare_0 in Hst. apply codeUnitCompare_0 in Htu. congruence.
  - exact Hall.
  - assert (ranked "maturity" (Sample.leveled "a" "established")) as Ha
      by (intros _; reflexivity).
    exact (proj2 (Hstable (Sample.leveled "a" "established") Ha)).
Defined.

(** C10.  Under the key ['searchScore'] a score of exactly 0 is replaced
    by 1, the value a method without a score gets.  In ascending order
    the comparison of such a perfect match with a method of positive
    score [s] is [1 - s]: not negative for a Fuse score, which is at most
    1, so the perfect match ties with it or sorts after it, and it comes
    after every method whose score is positive and below 1. *)
Theorem zero_score_sorts_last (localeCompare : string → string → Z)
    (methods : list Method) (a b : Method) (q s : Q) (i j : nat) :
  m_searchScore a = Some q → (q == 0)%Q →
  m_searchScore b = Some s → (0 < s)%Q →
  scoreKey a = 1%Q ∧
  (∀ c, m_searchScore c = None →
        scoreKey c = scoreKey a ∧
        (comparator localeCompare "searchScore" "asc" a c == 0)%Q) ∧
  (comparator localeCompare "searchScore" "asc" a b == 1 - s)%Q ∧
  ((s <= 1)%Q → (0 <= comparator localeCompare "searchScore" "asc" a b)%Q) ∧
  ((s < 1)%Q →
   sortMethods localeCompare methods "searchScore" "asc" !! i = Some a →
   sortMethods localeCompare methods "searchScore" "asc" !! j = Some b →
   (j < i)%nat).
Proof.
  intros Ha Hq Hb Hs.
  assert (scoreKey a = 1%Q) as Hka.
  { unfold scoreKey, or_Q. rewrite Ha.
    by destruct (Qeq_bool q 0) eqn:E; [|apply Qeq_bool_neq in E]. }
  assert (scoreKey b = s) as Hkb.
  { unfold scoreKey, or_Q. rewrite Hb.
    destruct (Qeq_bool s 0) eqn:E; [|done]. apply Qeq_bool_iff in E. lra. }
  assert (∀ x y, (comparator localeCompare "searchScore" "asc" x y
                  == scoreKey x - scoreKey y)%Q) as Hcmp
    by (intros x y; reflexivity).
  split; [done|]. split; [|split; [|split]].
  - intros c Hc. assert (scoreKey c = 1%Q) as Hkc
      by (unfold scoreKey; by rewrite Hc).
    split; [congruence|]. rewrite Hcmp, Hka, Hkc. lra.
  - rewrite Hcmp, Hka, Hkb. lra.
  - intros Hs1. rewrite Hcmp, Hka, Hkb. lra.
  - intros Hlt Hi Hj.
    destruct (Nat.lt_trichotomy i j) as [Hij|[->|Hji]]; [| |done].
    + pose proof (array_sort_lookup_le _ scoreKey Hcmp methods i j a b Hij Hi Hj).
      rewrite Hka, Hkb in *. lra.
    + rewrite Hi in Hj. injection Hj as ->. rewrite Ha in Hb.
      injection Hb as ->. lra.
Qed.

Lemma zero_score_sorts_last_witness :
  let sorted :=
    sortMethods codeUnitCompare
      [Sample.scored "perfect" 0; Sample.scored "weak" (3 # 10);
       Sample.scored "good" (1 # 10)] "searchScore" "asc" in
  sorted !! 2%nat = Some (Sample.scored "perfect" 0) ∧
  sorted !! 1%nat = Some (Sample.scored "weak" (3 # 10)) ∧
  (1 < 2)%nat.
Proof.
  split; [reflexivity|]. split; [reflexivity|].
  destruct (zero_score_sorts_last codeUnitCompare
              [Sample.scored "perfect" 0; Sample.scored "weak" (3 # 10);
               Sample.scored "good" (1 # 10)]
              (Sample.scored "perfect" 0) (Sample.scored "weak" (3 # 10))
              0%Q (3 # 10)%Q 2%nat 1%nat)
    as (_ & _ & _ & _ & Hafter); [reflexivity|reflexivity|reflexivity|lra|].
  apply Hafter; [lra|reflexivity|reflexivity].
Defined.

(** ** The radar chart *)

Lemma MATURITY_ORDER_lookup (level : string) :
  MATURITY_ORDER !! level = maturity_rank level.
Proof. apply maturityOrder_lookup. Qed.

Lemma AUTOMATION_ORDER_lookup (level : string) :
  AUTOMATION_ORDER !! level = automation_rank level.
Proof.
  unfold AUTOMATION_ORDER, automation_rank.
  rewrite !lookup_insert, lookup_singleton.
  repeat (case_decide; [subst; reflexivity|]).
  repeat match goal with
  | |- context [String.eqb ?a ?b] => destruct (String.eqb_spec a b); [congruence|]
  end. done.
Qed.

(** The rank the chart divides, for a level that names no inherited
    property: the rank of the table, or 1. *)
Lemma maturity_value_plain (level : option string) :
  plain (JS.key level) →
  JS.nullish_number (JS.get MATURITY_ORDER (JS.key level)) 1
  = Some (default 1 (level ≫= maturity_rank)).
Proof.
  intros Hplain. rewrite get_plain, MATURITY_ORDER_lookup by done.
  destruct level as [level|]; simpl; [|done].
  by destruct (maturity_rank level).
Qed.

Lemma automation_value_plain (level : option string) :
  plain (JS.key level) →
  JS.nullish_number (JS.get AUTOMATION_ORDER (JS.key level)) 1
  = Some (default 1 (level ≫= automation_rank)).
Proof.
  intros Hplain. rewrite get_plain, AUTOMATION_ORDER_lookup by done.
  destruct level as [level|]; simpl; [|done].
  by destruct (automation_rank level).
Qed.

Lemma or_Z_length_opt (a : option (list string)) :
  or_Z (length_opt a) 1 = if count a =? 0 then 1 else count a.
Proof. by destruct a. Qed.

Lemma ratio_unit (n d : Z) : 0 ≤ n ≤ d → 0 < d → (0 <= ratio n d <= 1)%Q.
Proof.
  intros [Hn Hd] Hpos. unfold ratio.
  assert (0 < inject_Z d)%Q as Hd' by (unfold Qlt; simpl; lia).
  split.
  - apply Qle_shift_div_l; [done|]. rewrite Qmult_0_l. unfold Qle; simpl; lia.
  - apply Qle_shift_div_r; [done|]. rewrite Qmult_1_l. unfold Qle; simpl; lia.
Qed.

Lemma ratio_full (d : Z) : 0 < d → (ratio d d == 1)%Q.
Proof.
  intros Hd. unfold ratio, Qdiv. apply Qmult_inv_r.
  intros H. apply (inject_Z_injective d 0) in H. lia.
Qed.

Lemma maturity_rank_range (level : option string) :
  0 ≤ default 1 (level ≫= maturity_rank) ≤ 3.
Proof.
  destruct level as [level|]; simpl; [|lia]. unfold maturity_rank.
  repeat match goal with
  | |- context [if ?c then _ else _] => destruct c; simpl; [lia|]
  end. lia.
Qed.

Lemma automation_rank_range (level : option string) :
  0 ≤ default 1 (level ≫= automation_rank) ≤ 2.
Proof.
  destruct level as [level|]; simpl; [|lia]. unfold automation_rank.
  repeat match goal with
  | |- context [if ?c then _ else _] => destruct c; simpl; [lia|]
  end. lia.
Qed.

Lemma capped_unit (a : option (list string)) (max : Z) :
  0 < max → (0 <= capped a max <= 1)%Q.
Proof.
  intros Hmax. apply ratio_unit; [|done]. unfold count.
  destruct (Z.eqb_spec (Z.of_nat (length (default [] a))) 0); lia.
Qed.

(** C3, as it holds of the code.  For a method whose maturity and
    automation level name no property that objects inherit (no level of
    the two scales does), the six plotted values are: maturity rank/3 and
    automation rank/2 (rank 1 when the level is absent or not in the
    table), and min(c,6)/6, min(c,10)/10, min(c,5)/5, min(c,5)/5 for the
    modalities, tasks, inputs and outputs, where c is the number of
    entries, or 1 when the list is empty or absent.  Every value is a
    number in [0,1]; a count at or above its maximum gives 1, so 20
    tasks and 10 tasks give the same value; and every method of a chart
    of two or more gets its polygon of values. *)
Theorem radar_values_normalised (method : Method) :
  plain (JS.key (m_maturity method)) →
  plain (JS.key (m_automation_level method)) →
  radarValues method
  = [ Some (ratio (default 1 (m_maturity method ≫= maturity_rank)) 3);
      Some (ratio (default 1 (m_automation_level method ≫= automation_rank)) 2);
      Some (capped (m_modalities method) 6);
      Some (capped (m_tasks method) 10);
      Some (capped (m_inputs method) 5);
      Some (capped (m_outputs method) 5) ] ∧
  Forall (λ v, ∃ q, v = Some q ∧ (0 <= q <= 1)%Q) (radarValues method) ∧
  (∀ a max, 0 < max →
     (0 < count a → capped a max = ratio (Z.min (count a) max) max) ∧
     (count a = 0 → capped a max = ratio (Z.min 1 max) max) ∧
     (max ≤ count a → (capped a max == 1)%Q)) ∧
  (∀ other,
     count (m_tasks method) = 20 → count (m_tasks other) = 10 →
     radarValues method !! 3%nat = radarValues other !! 3%nat ∧
     (capped (m_tasks method) 10 == 1)%Q) ∧
  (∀ methods, (2 ≤ length methods)%nat → method ∈ methods →
     ∃ polygons, createComparisonVisualization methods = Some polygons ∧
                 radarValues method ∈ polygons).
Proof.
  intros Hmaturity Hautomation.
  assert (radarValues method
          = [ Some (ratio (default 1 (m_maturity method ≫= maturity_rank)) 3);
              Some (ratio (default 1
                             (m_automation_level method ≫= automation_rank)) 2);
              Some (capped (m_modalities method) 6);
              Some (capped (m_tasks method) 10);
              Some (capped (m_inputs method) 5);
              Some (capped (m_outputs method) 5) ]) as Hvalues.
  { unfold radarValues, dimensions, radarValue, capped, over.
    cbn [map dim_key dim_max].
    cbn [String.eqb Ascii.eqb Bool.eqb].
    rewrite !or_Z_length_opt.
    rewrite maturity_value_plain, automation_value_plain by done.
    reflexivity. }
  assert (∀ a max, 0 < max → max ≤ count a → (capped a max == 1)%Q) as Hsat.
  { intros a max Hmax Hge. unfold capped.
    destruct (Z.eqb_spec (count a) 0); [lia|].
    rewrite Z.min_r by done. by apply ratio_full. }
  split; [done|]. split; [|split; [|split]].
  - rewrite Hvalues.
    repeat (constructor; [eexists; split; [reflexivity|]|]);
      [| |apply capped_unit; lia..|constructor].
    + apply ratio_unit; [|lia]. apply maturity_rank_range.
    + apply ratio_unit; [|lia]. apply automation_rank_range.
  - intros a max Hmax. unfold capped. split; [|split].
    + intros Hpos. by destruct (Z.eqb_spec (count a) 0); [lia|].
    + by intros ->.
    + by apply Hsat.
  - intros other H20 H10. split; [|apply Hsat; lia].
    unfold radarValues, dimensions, radarValue. cbn [map dim_key dim_max].
    cbn [String.eqb Ascii.eqb Bool.eqb]. rewrite !or_Z_length_opt.
    simpl. rewrite H20, H10. reflexivity.
  - intros methods Hlen Hin. exists (map radarValues methods). split.
    + unfold createComparisonVisualization.
      by destruct (Nat.ltb_spec (length methods) 2); [lia|].
    + by apply list_elem_of_fmap_2.
Qed.

Lemma radar_values_normalised_witness :
  Forall (λ v, ∃ q, v = Some q ∧ (0 <= q <= 1)%Q) (radarValues Sample.m2015) ∧
  (capped (Some ["cleaning"; "chunking"; "fusion"; "abstraction"; "correlation";
                 "uncertainty"; "visualization"; "discovery"; "conformance";
                 "prediction"; "extra"]) 10 == 1)%Q.
Proof.
  assert (plain (JS.key (m_maturity Sample.m2015))) as Hmaturity
    by reflexivity.
  assert (plain (JS.key (m_automation_level Sample.m2015))) as Hautomation
    by reflexivity.
  destruct (radar_values_normalised Sample.m2015 Hmaturity Hautomation)
    as (_ & Hunit & Hcap & _).
  split; [exact Hunit|].
  apply (Hcap _ 10); [lia|]. vm_compute. discriminate.
Defined.

(** C3 as stated fails: a method with an empty task list is plotted at
    1/10, not at min(0,10)/10. *)
Lemma empty_list_counts_as_one :
  ¬ (∀ method : Method,
       ∃ v, radarValues method !! 3%nat = Some (Some v) ∧
            (v == ratio (Z.min (count (m_tasks method)) 10) 10)%Q).
Proof.
  intros H.
  destruct (H {| m_id := "m"; m_name := "m"; m_pipeline_step := "collect";
                 m_modalities := Some ["text"]; m_tasks := Some [];
                 m_inputs := Some []; m_outputs := Some [];
                 m_evidence_type := None; m_maturity := Some "mature";
                 m_automation_level := Some "manual"; m_references := None;
                 m_searchScore := None; m_searchMatches := None |})
    as (v & Hv & Heq).
  vm_compute in Hv. injection Hv as <-. vm_compute in Heq. discriminate Heq.
Qed.

(** ** Worked examples *)

(** The scenario of the specification: three methods in the stages
    collect, preprocess and apply_mining with modalities {text}, {image}
    and {text, video}; the modality filter [text] keeps the first and the
    third, in their order. *)
Example filter_by_modality_text :
  applyFiltersAndSearch [Sample.m2015; Sample.m2020; Sample.undated]
    Sample.no_match
    (merge_filters FILTER_DEFAULTS
       {| p_pipelineStep := None; p_modalities := Some (Some ["text"]);
          p_tasks := None; p_evidenceTypes := None; p_maturityLevels := None;
          p_yearRange := None; p_searchQuery := None |})
  = [Sample.m2015; Sample.undated].
Proof. reflexivity. Qed.

(** A year range keeps the method without a year and drops the one
    outside the range. *)
Example filter_by_year_range :
  map m_id
    (filterMethods [Sample.m2015; Sample.m2020; Sample.undated]
       (Sample.filters_with {| yr_min := Some 2016; yr_max := Some 2020 |} []))
  = ["m-2020"; "m-undated"].
Proof. reflexivity. Qed.

(** Descending order is not the reverse of ascending order: the two
    methods of 2015 keep their order of input in both. *)
Example sort_by_year_both_orders :
  map m_id (sortMethods codeUnitCompare
              [Sample.m2015; Sample.m2020; Sample.also2015] "year" "asc")
  = ["m-2015"; "n-2015"; "m-2020"] ∧
  map m_id (sortMethods codeUnitCompare
              [Sample.m2015; Sample.m2020; Sample.also2015] "year" "desc")
  = ["m-2020"; "m-2015"; "n-2015"].
Proof. split; reflexivity. Qed.

Example trim_query :
  JS.trim (JS.of_string "  ab c ") = JS.of_string "ab c" ∧
  length (JS.trim [9; 97; 160; 8232]%N) = 1%nat.
Proof. split; reflexivity. Qed.

Example radar_values_of_sample :
  radarValues Sample.m2015
  = [Some (1 # 3)%Q; Some (ratio 2 2); Some (ratio 1 6); Some (ratio 1 10);
     Some (ratio 1 5); Some (ratio 1 5)].
Proof. reflexivity. Qed.

(** A year that is JSON [null] is compared as 0: a positive [min] drops
    the method, a [max] alone keeps it. *)
Example null_year_under_bounds :
  let unknown := Sample.method "m-null" "collect" (Some ["text"]) (Some 0) in
  filterMethods [unknown]
    (Sample.filters_with {| yr_min := Some 2016; yr_max := None |} [])
  = [] ∧
  filterMethods [unknown]
    (Sample.filters_with {| yr_min := None; yr_max := Some 2020 |} [])
  = [unknown].
Proof. split; reflexivity. Qed.

(** A stage named [__proto__] gets no count, and one named
    [constructor] a string for its count. *)
Example step_counts_of_inherited_names :
  let counts :=
    getStepCounts [Sample.method "a" "__proto__" None None; Sample.m2015;
                   Sample.method "b" "constructor" None None;
                   Sample.method "c" "constructor" None None] in
  counts !! "__proto__" = None ∧
  counts !! "collect" = Some (Count 1) ∧
  counts !! "constructor" = Some Text ∧
  total counts = 1.
Proof. repeat split; vm_compute; reflexivity. Qed.

(** A level that names an inherited property is plotted at NaN, while
    an unknown level that names none is plotted at rank 1. *)
Example radar_values_of_odd_levels :
  radarValues (Sample.leveled "m" "constructor") !! 0%nat = Some None ∧
  radarValues (Sample.leveled "m" "unheard-of") !! 0%nat = Some (Some (1 # 3)%Q).
Proof. split; reflexivity. Qed.

(** * Further properties of the code *)

(** ** The store and its click handlers *)

Lemma dispatch_all_ind (P : State → Prop) (Q : Action → Prop) :
  P initialState →
  (∀ s a, Q a → P s → P (appReducer s a)) →
  ∀ acts, Forall Q acts → P (dispatch_all acts).
Proof.
  intros H0 Hstep acts Hacts. unfold dispatch_all.
  revert H0. generalize initialState.
  induction Hacts as [|a acts Ha Hacts IH]; intros s Hs; simpl; [done|].
  apply IH. by apply Hstep.
Qed.

Lemma no_selector_keep (f : Filters) (m : Method) :
  no_selector f = true → keepMethod f m = true.
Proof.
  unfold no_selector, keepMethod. rewrite !andb_true_iff, !negb_true_iff.
  intros [[[[[-> ->] ->] ->] ->] Hyear]. simpl.
  destruct (yearRange f) as [r|]; [|done]. simpl in Hyear.
  apply andb_true_iff in Hyear as [Hmin Hmax].
  apply negb_true_iff in Hmin, Hmax. by rewrite Hmin, Hmax.
Qed.

Lemma short_query_apply (methods : list Method) (idx : Fuse) (f : Filters) :
  (length (JS.trim (searchQuery f)) < 2)%nat →
  applyFiltersAndSearch methods idx f = filterMethods methods f.
Proof.
  intros H. by rewrite applyFiltersAndSearch_working_set, working_set_short.
Qed.

(** X1.  In every state of the store a selected modality comes with the
    stage [collect] selected: no sequence of actions leaves a modality
    selected under another stage. *)
Theorem selected_modality_means_collect (acts : list Action) (id : string) :
  selectedModality (dispatch_all acts) = Some id →
  selectedStep (dispatch_all acts) = Some "collect".
Proof.
  revert id.
  apply (dispatch_all_ind
           (λ s, ∀ id, selectedModality s = Some id →
                       selectedStep s = Some "collect")
           (λ _, True)); [done| |by apply Forall_true].
  intros s a _ Hs id. destruct s, a; simpl in *; try done; eauto.
Qed.

Lemma selected_modality_means_collect_witness :
  selectedStep
    (dispatch_all [actions.setSelectedStep (Some "preprocess");
                   actions.setSelectedModality (Some "image");
                   actions.setSort "year" "desc"])
  = Some "collect".
Proof.
  apply (selected_modality_means_collect _ "image"). reflexivity.
Defined.

(** X2.  As long as no [setFilters] carries a [pipelineStep], the stage
    highlighted in the pipeline ([selectedStep]) and the stage filter
    ([filters.pipelineStep]) are the same in every state. *)
Theorem selected_step_is_stage_filter (acts : list Action) :
  Forall keeps_stage acts →
  selectedStep (dispatch_all acts) = pipelineStep (filters (dispatch_all acts)).
Proof.
  apply (dispatch_all_ind (λ s, selectedStep s = pipelineStep (filters s))
           keeps_stage); [done|].
  intros s a Ha Hs. destruct s, a; simpl in *; try done.
  by rewrite Ha.
Qed.

Lemma selected_step_is_stage_filter_witness :
  selectedStep
    (dispatch_all [actions.setSelectedModality (Some "text");
                   toggleArrayFilter FILTER_DEFAULTS F_tasks "discovery";
                   actions.setSelectedStep (Some "apply_mining")])
  = pipelineStep
      (filters
         (dispatch_all [actions.setSelectedModality (Some "text");
                        toggleArrayFilter FILTER_DEFAULTS F_tasks "discovery";
                        actions.setSelectedStep (Some "apply_mining")])).
Proof.
  apply selected_step_is_stage_filter. repeat constructor.
Defined.

(** X3.  [resetFilters] brings back the whole dataset: once the data and
    the index are loaded, the filtered list after it is the list of all
    methods, in order, and no stage or modality is selected. *)
Theorem resetFilters_shows_all (state : State) (d : Dataset) (idx : Fuse) :
  data state = Some d → searchIndex state = Some idx →
  let s := appReducer state actions.resetFilters in
  filteredMethods s = methods_of d ∧
  filteredMethods s = allMethods s ∧
  selectedStep s = None ∧ selectedModality s = None.
Proof.
  intros Hd Hi. destruct state; simpl in *. subst.
  unfold filteredMethods, allMethods; simpl.
  rewrite short_query_apply by (simpl; lia).
  repeat split; apply filter_all; intros m _; by apply no_selector_keep.
Qed.

Lemma resetFilters_shows_all_witness :
  filteredMethods
    (appReducer
       (dispatch_all
          [SET_SEARCH_INDEX Sample.no_match;
           SET_DATA {| pipeline_steps := [];
                       methods_of := [Sample.m2015; Sample.m2020] |};
           actions.setSelectedStep (Some "collect")])
       actions.resetFilters)
  = [Sample.m2015; Sample.m2020].
Proof.
  refine (proj1 (resetFilters_shows_all _
                   {| pipeline_steps := [];
                      methods_of := [Sample.m2015; Sample.m2020] |}
                   Sample.no_match _ _)); reflexivity.
Defined.

Lemma filteredMethods_keep (state : State) (m : Method) :
  m ∈ filteredMethods state → keepMethod (filters state) m = true.
Proof.
  unfold filteredMethods.
  destruct (data state), (searchIndex state);
    try (by intros ?%elem_of_nil).
  rewrite applyFiltersAndSearch_working_set, filterMethods_elem. by intros [_ ?].
Qed.

(** X4.  Selecting a stage leaves only methods of that stage in the
    filtered list; selecting a modality leaves only methods of the stage
    [collect] that list the modality.  This holds whatever the other
    filters and the search query are. *)
Theorem selection_restricts_list (state : State) (id : string) (m : Method) :
  id ≠ "" →
  (m ∈ filteredMethods (appReducer state (actions.setSelectedStep (Some id))) →
   m_pipeline_step m = id) ∧
  (m ∈ filteredMethods (appReducer state (actions.setSelectedModality (Some id))) →
   m_pipeline_step m = "collect" ∧
   ∃ l, m_modalities m = Some l ∧ id ∈ l).
Proof.
  intros Hid. split; intros Hm%filteredMethods_keep%keepMethod_true;
    destruct Hm as [(Hstage & Hmod & _) _]; destruct state; simpl in *.
  - by apply Hstage.
  - split; [by apply Hstage|].
    destruct (String.eqb_spec id "") as [|_]; [done|]. simpl in Hmod.
    destruct Hmod as (x & Hx & Hl); [by exists [id]|].
    apply list_elem_of_singleton in Hx as ->.
    destruct (m_modalities m) as [l|]; [by exists l|].
    by apply elem_of_nil in Hl.
Qed.

Lemma selection_restricts_list_witness :
  m_pipeline_step Sample.m2020 = "preprocess".
Proof.
  refine (proj1 (selection_restricts_list
                   (dispatch_all
                      [SET_SEARCH_INDEX Sample.no_match;
                       SET_DATA {| pipeline_steps := [];
                                   methods_of := [Sample.m2015; Sample.m2020] |}])
                   "preprocess" Sample.m2020 _) _); [discriminate|].
  vm_compute. left.
Defined.

Lemma remove_present_perm (l : list string) (x : string) :
  NoDup l → x ∈ l →
  List.filter (λ id, negb (String.eqb id x)) l ++ [x] ≡ₚ l.
Proof.
  induction 1 as [|y l Hy Hnd IH]; intros Hin; [by apply elem_of_nil in Hin|].
  simpl. destruct (String.eqb_spec y x) as [->|Hyx]; simpl.
  - rewrite filter_all.
    + by rewrite <- Permutation_cons_append.
    + intros z Hz. destruct (String.eqb_spec z x) as [->|]; done.
  - f_equiv. apply IH. apply elem_of_cons in Hin as [->|]; done.
Qed.

Lemma remove_absent (l : list string) (x : string) :
  x ∉ l → List.filter (λ id, negb (String.eqb id x)) l = l.
Proof.
  intros Hx. apply filter_all. intros z Hz.
  destruct (String.eqb_spec z x) as [->|]; done.
Qed.

(** X5.  Toggling the same method twice leaves the compare set with the
    same ids, in every state of the store; when the id was not in the set
    the list is exactly as before, and when it was, it has moved to the
    end. *)
Theorem toggle_compare_twice (acts : list Action) (methodId : string) :
  let s := dispatch_all acts in
  let s2 := appReducer (appReducer s (actions.toggleCompareMethod methodId))
              (actions.toggleCompareMethod methodId) in
  compareMethodIds s2 ≡ₚ compareMethodIds s ∧
  (methodId ∉ compareMethodIds s → compareMethodIds s2 = compareMethodIds s) ∧
  (methodId ∈ compareMethodIds s →
   compareMethodIds s2
   = List.filter (λ id, negb (String.eqb id methodId)) (compareMethodIds s)
     ++ [methodId]).
Proof.
  intros s s2.
  destruct (dispatch_all_compare_inv acts) as [Hnd Hlen]. fold s in Hnd, Hlen.
  assert (compareMethodIds s2
          = toggle_compare (toggle_compare (compareMethodIds s) methodId) methodId)
    as -> by (unfold s2; by destruct s).
  set (l := compareMethodIds s) in *.
  assert (methodId ∈ l →
          toggle_compare (toggle_compare l methodId) methodId
          = List.filter (λ id, negb (String.eqb id methodId)) l ++ [methodId])
    as Hin.
  { intros Hin. unfold toggle_compare at 2.
    pose proof Hin as Hin'. apply includes_true in Hin' as ->.
    pose proof (remove_present_length l methodId Hnd Hin) as Hlen'.
    unfold toggle_compare.
    assert (JS.includes (List.filter (λ id, negb (String.eqb id methodId)) l)
              methodId = false) as ->.
    { apply not_true_is_false. rewrite includes_true, toggle_compare_remove.
      rewrite list_elem_of_filter. tauto. }
    by destruct (Nat.ltb_spec
                   (length (List.filter (λ id, negb (String.eqb id methodId)) l)) 3);
      [|lia]. }
  assert (methodId ∉ l →
          toggle_compare (toggle_compare l methodId) methodId = l) as Hnin.
  { intros Hnin. unfold toggle_compare at 2.
    pose proof Hnin as Hnin'. rewrite <- includes_true in Hnin'.
    apply not_true_is_false in Hnin' as Hinc. rewrite Hinc.
    destruct (Nat.ltb_spec (length l) 3).
    - unfold toggle_compare.
      assert (JS.includes (l ++ [methodId]) methodId = true) as ->
        by (apply includes_true, elem_of_app; right; left).
      rewrite List.filter_app, remove_absent by done. simpl.
      rewrite String.eqb_refl. simpl. by rewrite app_nil_r.
    - unfold toggle_compare. rewrite Hinc.
      by destruct (Nat.ltb_spec (length l) 3); [lia|]. }
  split; [|by split].
  destruct (decide (methodId ∈ l)) as [Hl|Hl].
  - rewrite Hin by done. by apply remove_present_perm.
  - by rewrite Hnin.
Qed.

Lemma toggle_compare_twice_witness :
  compareMethodIds
    (dispatch_all (map actions.toggleCompareMethod ["a"; "b"; "c"; "a"; "a"]))
  = ["b"; "c"; "a"].
Proof.
  destruct (toggle_compare_twice (map actions.toggleCompareMethod ["a"; "b"; "c"]) "a")
    as (_ & _ & Hmoved).
  apply Hmoved. left.
Defined.

(** X6.  Hovering, opening a method, sorting, toggling the panel or the
    compare mode, changing the compare set, or reporting an error never
    changes the filters or the filtered list: only the data, the index,
    the filter actions and the two selection actions do. *)
Theorem ui_actions_keep_list (state : State) (acts : list Action) :
  Forall (λ a, ui_only a = true) acts →
  filters (foldl appReducer state acts) = filters state ∧
  filteredMethods (foldl appReducer state acts) = filteredMethods state ∧
  allMethods (foldl appReducer state acts) = allMethods state.
Proof.
  intros Hacts. revert state.
  induction Hacts as [|a acts Ha Hacts IH]; intros state; simpl; [done|].
  destruct (IH (appReducer state a)) as (-> & -> & ->).
  by destruct state, a.
Qed.

Lemma ui_actions_keep_list_witness :
  filters (foldl appReducer initialState
             [actions.setSort "year" "desc"; actions.setHoveredMethod (Some "m");
              actions.toggleCompareMethod "m"; actions.toggleFilters])
  = FILTER_DEFAULTS.
Proof.
  refine (proj1 (ui_actions_keep_list initialState _ _)).
  repeat constructor.
Defined.

(** X7.  The "Clear all" of the active-filters row clears the stage, the
    modalities, the tasks and the query, but leaves the evidence-type,
    maturity and year filters as they are; it shows the whole dataset
    when those three are off. *)
Theorem clearAll_keeps_three (state : State) (idx : Fuse) :
  let s := foldl appReducer state clearAll in
  (pipelineStep (filters s) = None ∧ modalities (filters s) = Some [] ∧
   tasks (filters s) = Some [] ∧ searchQuery (filters s) = [] ∧
   selectedStep s = None ∧ selectedModality s = None) ∧
  (evidenceTypes (filters s) = evidenceTypes (filters state) ∧
   maturityLevels (filters s) = maturityLevels (filters state) ∧
   yearRange (filters s) = yearRange (filters state)) ∧
  (searchIndex state = Some idx →
   selector_active (evidenceTypes (filters state)) = false →
   selector_active (maturityLevels (filters state)) = false →
   (∀ r, yearRange (filters state) = Some r →
         JS.truthy_Z (yr_min r) = false ∧ JS.truthy_Z (yr_max r) = false) →
   filteredMethods s = allMethods s).
Proof.
  destruct state as [d ? ? ? f ? ? ? ? ? ? ? ? ? idx']; simpl.
  split; [done|]. split; [done|].
  intros -> He Hm Hy. unfold filteredMethods, allMethods; simpl.
  destruct d as [d|]; [|done]. simpl.
  rewrite short_query_apply by (simpl; lia).
  apply filter_all. intros m _. apply no_selector_keep.
  unfold no_selector; simpl. rewrite He, Hm. simpl.
  destruct (yearRange f) as [r|]; [|done]. simpl.
  by destruct (Hy r eq_refl) as [-> ->].
Qed.

Lemma clearAll_keeps_three_witness :
  filteredMethods
    (foldl appReducer
       (dispatch_all
          [SET_SEARCH_INDEX Sample.no_match;
           SET_DATA {| pipeline_steps := [];
                       methods_of := [Sample.m2015; Sample.m2020] |};
           actions.setSelectedModality (Some "video")])
       clearAll)
  = [Sample.m2015; Sample.m2020].
Proof.
  destruct (clearAll_keeps_three
              (dispatch_all
                 [SET_SEARCH_INDEX Sample.no_match;
                  SET_DATA {| pipeline_steps := [];
                              methods_of := [Sample.m2015; Sample.m2020] |};
                  actions.setSelectedModality (Some "video")])
              Sample.no_match)
    as (_ & _ & Hall).
  apply Hall; try reflexivity. intros r [= <-]. split; reflexivity.
Defined.

(** X8.  A click on a stage card always clears the selected modality.
    It deselects the stage when that stage was selected with no modality,
    and selects it otherwise; so a second click on the same card
    deselects it. *)
Theorem step_click_toggles (state : State) (stepId : string) :
  let s := appReducer state (handleStepClick state stepId) in
  let s2 := appReducer s (handleStepClick s stepId) in
  (selectedModality s = None ∧ modalities (filters s) = Some []) ∧
  (selectedStep state = Some stepId →
   JS.truthy_string (selectedModality state) = false →
   selectedStep s = None ∧ pipelineStep (filters s) = None) ∧
  (selectedStep state ≠ Some stepId ∨
   JS.truthy_string (selectedModality state) = true →
   (selectedStep s = Some stepId ∧ pipelineStep (filters s) = Some stepId) ∧
   (selectedStep s2 = None ∧ pipelineStep (filters s2) = None)).
Proof.
  assert (∀ st,
    let s := appReducer st (handleStepClick st stepId) in
    (selectedModality s = None ∧ modalities (filters s) = Some []) ∧
    (selectedStep st = Some stepId →
     JS.truthy_string (selectedModality st) = false →
     selectedStep s = None ∧ pipelineStep (filters s) = None) ∧
    (selectedStep st ≠ Some stepId ∨
     JS.truthy_string (selectedModality st) = true →
     selectedStep s = Some stepId ∧ pipelineStep (filters s) = Some stepId))
    as Hclick.
  { intros st. unfold handleStepClick.
    destruct st as [? ? ? ? f sel md ? ? ? ? ? ? ? ?]; simpl.
    destruct (decide (Some stepId = sel)) as [Heq|Hne].
    - rewrite (bool_decide_eq_true_2 _ Heq). subst sel.
      destruct (JS.truthy_string md) eqn:Hmd; simpl.
      + destruct (String.eqb_spec stepId "collect") as [->|]; simpl.
        * repeat split; intros; (done || intuition congruence).
        * repeat split; intros; (done || intuition congruence).
      + repeat split; intros; (done || intuition congruence).
    - rewrite (bool_decide_eq_false_2 _ Hne). simpl.
      destruct (String.eqb_spec stepId "collect") as [->|];
        destruct (JS.truthy_string md) eqn:Hmd; simpl;
        repeat split; intros; (done || intuition congruence). }
  intros s s2. subst s s2. simpl in Hclick.
  destruct (Hclick state) as (Hmod & Hoff & Hon).
  split; [done|]. split; [done|]. intros Hcase.
  destruct (Hon Hcase) as [Hsel Hflt]. split; [done|].
  destruct (Hclick (appReducer state (handleStepClick state stepId)))
    as (_ & Hoff2 & _).
  apply Hoff2; [done|]. by rewrite (proj1 Hmod).
Qed.

Lemma step_click_toggles_witness :
  selectedStep
    (appReducer initialState (handleStepClick initialState "preprocess"))
  = Some "preprocess".
Proof.
  destruct (step_click_toggles initialState "preprocess") as (_ & _ & Hon).
  apply Hon. left. discriminate.
Defined.

(** X9.  A click on a data-source circle always puts the stage on
    [collect].  It clears the modality when that circle was the selected
    one and selects it otherwise, replacing any other: the modality
    filter never holds more than the one modality clicked. *)
Theorem data_source_click_toggles (state : State) (modalityId : string) :
  let s := appReducer state (handleDataSourceClick state modalityId) in
  (selectedStep s = Some "collect" ∧ pipelineStep (filters s) = Some "collect") ∧
  (selectedModality state = Some modalityId →
   selectedModality s = None ∧ modalities (filters s) = Some []) ∧
  (selectedModality state ≠ Some modalityId →
   selectedModality s = Some modalityId ∧
   (modalityId ≠ "" → modalities (filters s) = Some [modalityId])) ∧
  (∃ l, modalities (filters s) = Some l ∧ (length l ≤ 1)%nat ∧
        ∀ x, x ∈ l → x = modalityId).
Proof.
  unfold handleDataSourceClick.
  destruct state as [? ? ? ? f sel md ? ? ? ? ? ? ? ?]; simpl.
  destruct (decide (Some modalityId = md)) as [Heq|Hne].
  - rewrite (bool_decide_eq_true_2 _ Heq). simpl. subst md.
    repeat split; try done. exists []. repeat split; [simpl; lia|].
    by intros x ?%elem_of_nil.
  - rewrite (bool_decide_eq_false_2 _ Hne). simpl.
    split; [done|]. split; [intros ->; done|]. split.
    + intros _. split; [done|]. intros Hid.
      by destruct (String.eqb_spec modalityId "").
    + destruct (String.eqb_spec modalityId ""); simpl.
      * exists []. repeat split; [simpl; lia|]. by intros x ?%elem_of_nil.
      * exists [modalityId]. repeat split; [simpl; lia|].
        by intros x ->%list_elem_of_singleton.
Qed.

Lemma data_source_click_toggles_witness :
  selectedModality
    (appReducer
       (appReducer initialState (handleDataSourceClick initialState "audio"))
       (handleDataSourceClick
          (appReducer initialState (handleDataSourceClick initialState "audio"))
          "audio"))
  = None.
Proof.
  destruct (data_source_click_toggles
              (appReducer initialState (handleDataSourceClick initialState "audio"))
              "audio") as (_ & Hoff & _).
  apply Hoff. reflexivity.
Defined.

(** ** Count badges of the pipeline diagram *)

Lemma filter_filter {A} (p q : A → bool) (l : list A) :
  List.filter p (List.filter q l) = List.filter (λ x, q x && p x) l.
Proof.
  induction l as [|x l IH]; [done|]. simpl.
  destruct (q x); simpl; [destruct (p x)|]; by rewrite ?IH.
Qed.

Lemma foldl_insert_lookup {B} (f : B → string) (h : string → Z) (l : list B)
    (init : gmap string Z) (k : string) :
  foldl (λ c b, <[f b := h (f b)]> c) init l !! k
  = if decide (k ∈ map f l) then Some (h k) else init !! k.
Proof.
  revert init. induction l as [|b l IH]; intros init; cbn [foldl map].
  - case_decide as H; [by apply elem_of_nil in H|done].
  - rewrite IH. destruct (decide (k ∈ map f l)) as [Hin|Hnin].
    + rewrite decide_True; [done|by right].
    + destruct (decide (k = f b)) as [->|Hne].
      * rewrite lookup_insert_eq. rewrite decide_True; [done|by left].
      * rewrite lookup_insert_ne by done.
        rewrite decide_False; [done|]. by intros [?|?]%elem_of_cons.
Qed.

Lemma stage_only_keep (f : Filters) (step : string) (mods : list string)
    (m : Method) :
  no_other_selector f = true → step ≠ "" →
  keepMethod (with_step_modalities f (Some step) mods) m
  = String.eqb (m_pipeline_step m) step
    && (negb (0 <? length mods)%nat
        || from_option (existsb (JS.includes mods)) false (m_modalities m)).
Proof.
  unfold no_other_selector. rewrite !andb_true_iff, !negb_true_iff.
  intros [[[[Ht He] Hm] Hy] _] Hstep.
  unfold keepMethod; simpl. rewrite Ht, He, Hm; simpl.
  destruct (String.eqb_spec step "") as [|_]; [done|]. simpl.
  destruct (String.eqb_spec (m_pipeline_step m) step) as [->|Hne].
  - rewrite bool_decide_eq_true_2 by done. simpl.
    assert (match yearRange f with
            | Some range =>
                if JS.truthy_Z (yr_min range)
                   && JS.lt (year_of m) (default 0 (yr_min range))
                then false
                else if JS.truthy_Z (yr_max range)
                        && JS.gt (year_of m) (default 0 (yr_max range))
                then false else true
            | None => true
            end = true) as ->.
    { destruct (yearRange f) as [r|]; [|done]. simpl in Hy.
      apply andb_true_iff in Hy as [Hmin Hmax].
      apply negb_true_iff in Hmin, Hmax. by rewrite Hmin, Hmax. }
    destruct (0 <? length mods)%nat; simpl; [|done].
    destruct (m_modalities m) as [l|]; simpl; [|done].
    by destruct (existsb _ l).
  - rewrite bool_decide_eq_false_2 by congruence. done.
Qed.



(** X11.  The count on a data-source circle is the number of methods the
    list shows after that circle is clicked (from a state where it was
    not the selected one), under the same condition on the other
    filters. *)
Theorem source_badge_is_result_count (state : State) (d : Dataset) (idx : Fuse)
    (source : string) :
  data state = Some d → searchIndex state = Some idx →
  no_other_selector (filters state) = true →
  source ∈ DATA_SOURCES → selectedModality state ≠ Some source →
  modalityCounts_of (methods_of d) !! source
  = Some (Z.of_nat (length (filteredMethods
                              (appReducer state
                                 (handleDataSourceClick state source))))).
Proof.
  intros Hd Hi Hno Hin Hsel.
  assert (source ≠ "") as Hne.
  { intros ->. unfold DATA_SOURCES in Hin.
    repeat (apply elem_of_cons in Hin as [Hin|Hin]; [discriminate Hin|]).
    by apply elem_of_nil in Hin. }
  unfold modalityCounts_of.
  rewrite (foldl_insert_lookup (λ s : string, s)
             (λ k, Z.of_nat (length (List.filter
                       (λ m, from_option (λ l, JS.includes l k) false (m_modalities m))
                       (List.filter (λ m, String.eqb (m_pipeline_step m) "collect")
                          (methods_of d)))))).
  rewrite map_id, decide_True by done. do 3 f_equal.
  unfold handleDataSourceClick.
  rewrite bool_decide_eq_false_2 by congruence.
  destruct state; simpl in *. subst. unfold filteredMethods; simpl.
  destruct (String.eqb_spec source "") as [|_]; [done|]. simpl.
  rewrite short_query_apply.
  - unfold filterMethods. rewrite filter_filter. apply List.filter_ext. intros m.
    rewrite stage_only_keep by done. simpl. f_equal.
    destruct (m_modalities m) as [l|]; simpl; [|done].
    unfold JS.includes.
    destruct (decide (source ∈ l)) as [Hl|Hl].
    + rewrite (bool_decide_eq_true_2 _ Hl). symmetry. apply existsb_exists.
      exists source. split; [by apply list_elem_of_In|].
      apply bool_decide_eq_true_2. left.
    + rewrite (bool_decide_eq_false_2 _ Hl). symmetry.
      apply not_true_is_false. intros (x & Hx & Hx')%existsb_exists.
      apply bool_decide_eq_true_1 in Hx'.
      apply list_elem_of_singleton in Hx' as ->. by apply list_elem_of_In in Hx.
  - simpl. unfold no_other_selector in Hno. rewrite !andb_true_iff in Hno.
    destruct Hno as [_ Hq]. by apply Nat.ltb_lt.
Qed.

Lemma source_badge_is_result_count_witness :
  modalityCounts_of (methods_of Demo.dataset) !! "text" = Some 1.
Proof.
  apply (source_badge_is_result_count Demo.loaded Demo.dataset Sample.no_match
           "text"); try reflexivity.
  - left.
  - discriminate.
Defined.

(** ** More on filtering and searching *)

Lemma filter_sublist {A} (p : A → bool) (l : list A) :
  List.filter p l `sublist_of` l.
Proof.
  induction l as [|x l IH]; simpl; [done|].
  destruct (p x); [by apply sublist_skip|by apply sublist_cons].
Qed.

(** X12.  The filtered list is a subsequence of the list it is computed
    from: the dataset when no search applies, the ranked matches when one
    does.  Filtering drops methods and never reorders, repeats or adds
    one; and with a search every method returned carries its score. *)
Theorem result_is_subsequence (methods : list Method) (idx : Fuse)
    (f : Filters) :
  applyFiltersAndSearch methods idx f `sublist_of` working_set methods idx f ∧
  ((length (JS.trim (searchQuery f)) < 2)%nat →
   applyFiltersAndSearch methods idx f `sublist_of` methods) ∧
  ((2 ≤ length (JS.trim (searchQuery f)))%nat →
   applyFiltersAndSearch methods idx f
     `sublist_of` map annotate (search idx (JS.trim (searchQuery f))) ∧
   ∀ m, m ∈ applyFiltersAndSearch methods idx f → is_Some (m_searchScore m)).
Proof.
  rewrite applyFiltersAndSearch_working_set. split; [apply filter_sublist|].
  split.
  - intros H. rewrite working_set_short by done. apply filter_sublist.
  - intros H. rewrite working_set_long by done. split; [apply filter_sublist|].
    intros m [Hm _]%filterMethods_elem.
    apply list_elem_of_fmap in Hm as (r & -> & _). by eexists.
Qed.

Lemma result_is_subsequence_witness :
  applyFiltersAndSearch [Sample.m2015; Sample.m2020; Sample.undated]
    Sample.no_match (Sample.filters_with Sample.range15_20 [])
  `sublist_of` [Sample.m2015; Sample.m2020; Sample.undated].
Proof.
  destruct (result_is_subsequence [Sample.m2015; Sample.m2020; Sample.undated]
              Sample.no_match (Sample.filters_with Sample.range15_20 []))
    as (_ & Hshort & _).
  apply Hshort. simpl. lia.
Defined.

Lemma intersects_more (sel : list string) (x : string)
    (tags : option (list string)) :
  sel ≠ [] →
  (Spec.nonempty (Some sel) → Spec.intersects (Some sel) tags) →
  Spec.nonempty (Some (sel ++ [x])) → Spec.intersects (Some (sel ++ [x])) tags.
Proof.
  intros Hsel H _. destruct H as (y & Hy & Ht); [by exists sel|].
  exists y. split; [|done]. simpl in *. apply elem_of_app. by left.
Qed.

Lemma member_more (sel : list string) (x : string) (v : option string) :
  sel ≠ [] →
  (Spec.nonempty (Some sel) → Spec.member (Some sel) v) →
  Spec.nonempty (Some (sel ++ [x])) → Spec.member (Some (sel ++ [x])) v.
Proof.
  intros Hsel H _. destruct H as (y & Hy & Ht); [by exists sel|].
  exists y. split; [done|]. simpl in *. apply elem_of_app. by left.
Qed.

(** X13.  Within one array filter the chips widen: switching on a
    further value of a filter that already has one never removes a method
    from the list. *)
Theorem further_chip_widens (state : State) (filterName : ArrayFilter)
    (value : string) (current : list string) (m : Method) :
  array_filter (filters state) filterName = Some current →
  current ≠ [] → value ∉ current →
  m ∈ filteredMethods state →
  m ∈ filteredMethods
        (appReducer state (toggleArrayFilter (filters state) filterName value)).
Proof.
  intros Hcur Hne Hval. unfold toggleArrayFilter. rewrite Hcur. simpl.
  rewrite <- includes_true in Hval. apply not_true_is_false in Hval as ->.
  unfold filteredMethods.
  destruct state as [d ? ? ? f ? ? ? ? ? ? ? ? ? idx]; simpl in *.
  destruct d as [d|], idx as [idx|]; try done.
  rewrite !applyFiltersAndSearch_working_set, !filterMethods_elem.
  intros [Hin Hkeep]. split.
  - by destruct filterName.
  - apply keepMethod_true in Hkeep as [(Hs & Hm & Ht & He & Hl) Hy].
    apply keepMethod_true.
    unfold Spec.categories_ok, Spec.stage_ok, Spec.modalities_ok, Spec.tasks_ok,
      Spec.evidence_ok, Spec.maturity_ok, Spec.year_not_outside in *.
    destruct filterName; simpl in *; rewrite Hcur in *;
      repeat split; try done; try (by apply Hy);
      try (by apply intersects_more); by apply member_more.
Qed.

Lemma further_chip_widens_witness :
  Sample.m2015
    ∈ filteredMethods
        (appReducer
           (appReducer Demo.loaded
              (toggleArrayFilter (filters Demo.loaded) F_modalities "text"))
           (toggleArrayFilter
              (filters
                 (appReducer Demo.loaded
                    (toggleArrayFilter (filters Demo.loaded) F_modalities "text")))
              F_modalities "image")).
Proof.
  apply (further_chip_widens _ F_modalities "image" ["text"]).
  - reflexivity.
  - discriminate.
  - apply not_elem_of_cons. split; [discriminate|apply not_elem_of_nil].
  - vm_compute. left.
Defined.

(** ** Trimming *)

Lemma trimStart_fixed (s : JS.str) :
  (∀ c s', s = c :: s' → JS.is_space c = false) → JS.trimStart s = s.
Proof.
  destruct s as [|c s]; [done|]. intros H. simpl. by rewrite (H c s eq_refl).
Qed.

Lemma trimStart_head (s : JS.str) (c : N) (s' : JS.str) :
  JS.trimStart s = c :: s' → JS.is_space c = false.
Proof.
  induction s as [|d s IH]; simpl; [done|].
  destruct (JS.is_space d) eqn:Hd; [done|]. by intros [= <- _].
Qed.

Lemma trimStart_snoc (s : JS.str) (c : N) :
  JS.is_space c = false → JS.trimStart (s ++ [c]) = JS.trimStart s ++ [c].
Proof.
  intros Hc. induction s as [|d s IH]; simpl; [by rewrite Hc|].
  by destruct (JS.is_space d).
Qed.

Lemma trimEnd_head (s : JS.str) (c : N) (s' : JS.str) :
  JS.is_space c = false →
  ∃ s'', JS.trimEnd (c :: s') = c :: s''.
Proof.
  intros Hc. unfold JS.trimEnd. rewrite reverse_cons, trimStart_snoc by done.
  rewrite reverse_app. simpl. by eexists.
Qed.

Lemma trimEnd_fixed (s : JS.str) :
  (∀ c s', reverse s = c :: s' → JS.is_space c = false) → JS.trimEnd s = s.
Proof.
  intros H. unfold JS.trimEnd. rewrite trimStart_fixed by done.
  apply reverse_involutive.
Qed.

Lemma trimStart_trim (s : JS.str) : JS.trimStart (JS.trim s) = JS.trim s.
Proof.
  unfold JS.trim. apply trimStart_fixed. intros c s' Heq.
  destruct (JS.trimStart s) as [|d t] eqn:Ht.
  - by vm_compute in Heq.
  - pose proof (trimStart_head _ _ _ Ht) as Hd.
    destruct (trimEnd_head t d t Hd) as (s'' & Hs'').
    rewrite Hs'' in Heq. by injection Heq as <- _.
Qed.

Lemma trim_idemp (s : JS.str) : JS.trim (JS.trim s) = JS.trim s.
Proof.
  unfold JS.trim at 1. rewrite trimStart_trim.
  apply trimEnd_fixed. intros c s' Heq.
  unfold JS.trim, JS.trimEnd in Heq. rewrite reverse_involutive in Heq.
  by eapply trimStart_head.
Qed.

(** X14.  White space around the query does not matter: a query and its
    trimmed form give the same search result, and trimming twice is
    trimming once; the trimmed query neither starts nor ends with white
    space. *)
Theorem search_ignores_outer_space (searchIndex : Fuse) (query : JS.str) :
  searchMethods searchIndex (JS.trim query) = searchMethods searchIndex query ∧
  JS.trim (JS.trim query) = JS.trim query ∧
  (∀ c s, JS.trim query = c :: s → JS.is_space c = false) ∧
  (∀ c s, JS.trim query = s ++ [c] → JS.is_space c = false).
Proof.
  split; [|split; [apply trim_idemp|split]].
  - destruct (Nat.lt_ge_cases (length (JS.trim query)) 2) as [Hlt|Hge].
    + rewrite !searchMethods_short; rewrite ?trim_idemp; done.
    + rewrite !searchMethods_long; rewrite ?trim_idemp; done.
  - intros c s Heq. rewrite <- trimStart_trim in Heq. by eapply trimStart_head.
  - intros c s Heq. unfold JS.trim, JS.trimEnd in Heq.
    apply (f_equal reverse) in Heq.
    rewrite reverse_involutive, reverse_app in Heq. simpl in Heq.
    by eapply trimStart_head.
Qed.

Lemma search_ignores_outer_space_witness :
  JS.is_space 97 = false.
Proof.
  destruct (search_ignores_outer_space Sample.no_match (JS.of_string "  ab c "))
    as (_ & _ & Hhead & _).
  apply (Hhead 97%N (JS.of_string "b c")). reflexivity.
Defined.

(** ** More on sorting *)

Lemma array_sort_no_swap {A} (compareFn : A → A → Q) (l : list A) :
  (∀ x y, ¬ (0 < compareFn x y)%Q) → array_sort compareFn l = l.
Proof.
  intros H. induction l as [|x l IH]; [done|].
  cbn [array_sort foldr]. fold (array_sort compareFn l). rewrite IH.
  destruct l as [|y l]; [done|]. simpl.
  destruct (Qlt_le_dec 0 (compareFn x y)) as [Hlt|]; [|done]. by destruct (H x y).
Qed.

(** X15.  A sort key that is none of [name], [year], [maturity],
    [pipeline_step] and [searchScore] sorts nothing: [sortMethods]
    returns the methods in the order given, for either order. *)
Theorem unknown_sort_key_keeps_order (localeCompare : string → string → Z)
    (methods : list Method) (sortBy order : string) :
  sortBy ∉ ["name"; "year"; "maturity"; "pipeline_step"; "searchScore"] →
  sortMethods localeCompare methods sortBy order = methods.
Proof.
  intros Hkey. apply array_sort_no_swap. intros x y.
  unfold comparator, comparison.
  repeat match goal with
  | |- context [String.eqb sortBy ?k] =>
      destruct (String.eqb_spec sortBy k) as [->|_];
        [exfalso; apply Hkey; repeat (first [by left|right])|]
  end.
  destruct (order =? "desc")%string; simpl; lra.
Qed.

Lemma unknown_sort_key_keeps_order_witness :
  sortMethods codeUnitCompare [Sample.m2020; Sample.m2015] "date" "desc"
  = [Sample.m2020; Sample.m2015].
Proof.
  apply unknown_sort_key_keeps_order.
  repeat (apply not_elem_of_cons; split; [discriminate|]). apply not_elem_of_nil.
Defined.

Lemma comparator_numeric (localeCompare : string → string → Z)
    (sortBy order : string) (x y : Method) :
  sortBy ∈ ["year"; "maturity"; "searchScore"] →
  ranked sortBy x → ranked sortBy y →
  (comparator localeCompare sortBy order x y
   == (if (order =? "desc")%string then -1 else 1)
      * (numericKey sortBy x - numericKey sortBy y))%Q.
Proof.
  intros Hkey Hx Hy. unfold comparator.
  rewrite comparison_ranked by done. unfold numericKey.
  repeat (apply elem_of_cons in Hkey as [->|Hkey]);
    [| | |by apply elem_of_nil in Hkey]; simpl;
    destruct (order =? "desc")%string;
    unfold Z.sub; rewrite ?inject_Z_plus, ?inject_Z_opp; lra.
Qed.

(** X16.  Under the keys [year], [maturity] and [searchScore] the result
    of [sortMethods] is in order: non-decreasing in the key for ['asc']
    (and any order other than ['desc']), non-increasing for ['desc'],
    where a missing year counts as 0 and a missing or zero score as 1.
    Under [maturity] this is so for methods whose level names no
    inherited property, as no level of the scale does; a missing level,
    and an unknown one of that kind, count as rank 0. *)
Theorem sortMethods_numeric_order (localeCompare : string → string → Z)
    (methods : list Method) (sortBy order : string) (i j : nat) (a b : Method) :
  sortBy ∈ ["year"; "maturity"; "searchScore"] →
  Forall (ranked sortBy) methods →
  (i < j)%nat →
  sortMethods localeCompare methods sortBy order !! i = Some a →
  sortMethods localeCompare methods sortBy order !! j = Some b →
  if (order =? "desc")%string
  then (numericKey sortBy b <= numericKey sortBy a)%Q
  else (numericKey sortBy a <= numericKey sortBy b)%Q.
Proof.
  intros Hkey Hall Hij Hi Hj. rewrite Forall_forall in Hall.
  assert (∀ x y, x ∈ methods → y ∈ methods →
            (comparator localeCompare sortBy order x y
             == (if (order =? "desc")%string then -1 else 1)
                * (numericKey sortBy x - numericKey sortBy y))%Q) as Hcmp
    by (intros x y Hx Hy; apply comparator_numeric; auto).
  destruct (order =? "desc")%string.
  - assert (- numericKey sortBy a <= - numericKey sortBy b)%Q; [|lra].
    apply (array_sort_lookup_le_on (comparator localeCompare sortBy order)
             (λ m, (- numericKey sortBy m)%Q)) with methods i j; [|done..].
    intros x y Hx Hy. rewrite Hcmp by done. lra.
  - apply (array_sort_lookup_le_on (comparator localeCompare sortBy order)
             (numericKey sortBy)) with methods i j; [|done..].
    intros x y Hx Hy. rewrite Hcmp by done. lra.
Qed.

Lemma sortMethods_numeric_order_witness :
  (numericKey "maturity" (Sample.leveled "b" "unheard-of")
   <= numericKey "maturity" (Sample.leveled "a" "mature"))%Q.
Proof.
  assert ("maturity" ∈ ["year"; "maturity"; "searchScore"]) as Hkey
    by (right; left).
  assert (Forall (ranked "maturity")
            [Sample.leveled "b" "unheard-of"; Sample.leveled "a" "mature";
             Sample.leveled "c" "emerging"]) as Hall
    by (repeat constructor).
  assert (0 < 2)%nat as H02 by lia.
  exact (sortMethods_numeric_order codeUnitCompare
           [Sample.leveled "b" "unheard-of"; Sample.leveled "a" "mature";
            Sample.leveled "c" "emerging"] "maturity" "desc"
           0 2 (Sample.leveled "a" "mature") (Sample.leveled "b" "unheard-of")
           Hkey Hall H02 eq_refl eq_refl).
Defined.

(** ** Filter options *)

Section SetFacts.
Context {A : Type} `{EqDecision A}.

Lemma set_add_elem (s : list A) (x y : A) : y ∈ set_add s x ↔ y ∈ s ∨ y = x.
Proof.
  unfold set_add. case_bool_decide as Hx.
  - split; [by left|]. by intros [?| ->].
  - rewrite elem_of_app, list_elem_of_singleton. done.
Qed.

Lemma set_add_NoDup (s : list A) (x : A) : NoDup s → NoDup (set_add s x).
Proof.
  intros Hs. unfold set_add. case_bool_decide as Hx; [done|].
  apply NoDup_app. repeat split; [done| |apply NoDup_singleton].
  by intros y Hy ->%list_elem_of_singleton.
Qed.

Lemma foldl_set_add_elem (s l : list A) (y : A) :
  y ∈ foldl set_add s l ↔ y ∈ s ∨ y ∈ l.
Proof.
  revert s. induction l as [|x l IH]; intros s; simpl.
  - split; [by left|]. by intros [?|?%elem_of_nil].
  - rewrite IH, set_add_elem, elem_of_cons. tauto.
Qed.

Lemma foldl_set_add_NoDup (s l : list A) : NoDup s → NoDup (foldl set_add s l).
Proof.
  revert s. induction l as [|x l IH]; intros s Hs; simpl; [done|].
  by apply IH, set_add_NoDup.
Qed.
End SetFacts.

Lemma tags_seen_elem (field : Method → option (list string))
    (methods : list Method) (init : list string) (x : string) :
  x ∈ foldl (λ s method, foldl set_add s (default [] (field method))) init methods
  ↔ x ∈ init ∨ ∃ m l, m ∈ methods ∧ field m = Some l ∧ x ∈ l.
Proof.
  revert init. induction methods as [|m methods IH]; intros init; simpl.
  - split; [by left|]. intros [?|(m & l & ?%elem_of_nil & _)]; done.
  - rewrite IH, foldl_set_add_elem. split.
    + intros [[?|Hx]|(m' & l & Hm' & Hl & Hx)].
      * by left.
      * right. destruct (field m) as [l|] eqn:Hf; [|by apply elem_of_nil in Hx].
        exists m, l. split; [left|done].
      * right. exists m', l. split; [by right|done].
    + intros [?|(m' & l & Hm' & Hl & Hx)]; [by left; left|].
      apply elem_of_cons in Hm' as [->|Hm'].
      * left. right. by rewrite Hl.
      * right. by exists m', l.
Qed.

Lemma tags_seen_NoDup (field : Method → option (list string))
    (methods : list Method) (init : list string) :
  NoDup init →
  NoDup (foldl (λ s method, foldl set_add s (default [] (field method)))
           init methods).
Proof.
  revert init. induction methods as [|m methods IH]; intros init Hi; simpl; [done|].
  by apply IH, foldl_set_add_NoDup.
Qed.

Lemma truthy_seen_elem (field : Method → option string)
    (methods : list Method) (init : list string) (x : string) :
  x ∈ foldl (λ s method, add_truthy s (field method)) init methods
  ↔ x ∈ init ∨ (x ≠ "" ∧ ∃ m, m ∈ methods ∧ field m = Some x).
Proof.
  revert init. induction methods as [|m methods IH]; intros init; simpl.
  - split; [by left|]. intros [?|(_ & m & ?%elem_of_nil & _)]; done.
  - rewrite IH. unfold add_truthy, JS.truthy_string.
    destruct (field m) as [v|] eqn:Hf; simpl.
    + destruct (String.eqb_spec v "") as [->|Hv]; simpl.
      * split.
        -- intros [?|(Hx & m' & Hm' & Hx')]; [by left|].
           right. split; [done|]. exists m'. split; [by right|done].
        -- intros [?|(Hx & m' & Hm' & Hx')]; [by left|].
           apply elem_of_cons in Hm' as [->|Hm']; [congruence|].
           right. split; [done|]. by exists m'.
      * rewrite set_add_elem. split.
        -- intros [[?| ->]|(Hx & m' & Hm' & Hx')].
           ++ by left.
           ++ right. split; [done|]. exists m. split; [left|done].
           ++ right. split; [done|]. exists m'. split; [by right|done].
        -- intros [?|(Hx & m' & Hm' & Hx')]; [by left; left|].
           apply elem_of_cons in Hm' as [->|Hm'].
           ++ left. right. congruence.
           ++ right. split; [done|]. by exists m'.
    + split.
      * intros [?|(Hx & m' & Hm' & Hx')]; [by left|].
        right. split; [done|]. exists m'. split; [by right|done].
      * intros [?|(Hx & m' & Hm' & Hx')]; [by left|].
        apply elem_of_cons in Hm' as [->|Hm']; [congruence|].
        right. split; [done|]. by exists m'.
Qed.

Lemma truthy_seen_NoDup (field : Method → option string)
    (methods : list Method) (init : list string) :
  NoDup init →
  NoDup (foldl (λ s method, add_truthy s (field method)) init methods).
Proof.
  revert init. induction methods as [|m methods IH]; intros init Hi; simpl; [done|].
  apply IH. unfold add_truthy. destruct (JS.truthy_string _); [|done].
  by apply set_add_NoDup.
Qed.

Lemma default_sort_elem (a : list string) (x : string) :
  x ∈ default_sort a ↔ x ∈ a.
Proof. unfold default_sort. by rewrite array_sort_perm. Qed.

Lemma default_sort_NoDup (a : list string) : NoDup a → NoDup (default_sort a).
Proof. unfold default_sort. by rewrite array_sort_perm. Qed.

(** X17.  The modality, task and evidence-type options are exactly the
    values that occur in the methods (an empty evidence type is not
    offered), each listed once. *)
Theorem filter_options_are_the_values_used (methods : list Method) (x : string) :
  let o := getFilterOptions methods in
  (x ∈ fo_modalities o ↔ ∃ m l, m ∈ methods ∧ m_modalities m = Some l ∧ x ∈ l) ∧
  (x ∈ fo_tasks o ↔ ∃ m l, m ∈ methods ∧ m_tasks m = Some l ∧ x ∈ l) ∧
  (x ∈ fo_evidenceTypes o
   ↔ x ≠ "" ∧ ∃ m, m ∈ methods ∧ m_evidence_type m = Some x) ∧
  NoDup (fo_modalities o) ∧ NoDup (fo_tasks o) ∧ NoDup (fo_evidenceTypes o).
Proof.
  simpl. rewrite !default_sort_elem.
  unfold modalities_seen, tasks_seen, evidenceTypes_seen.
  rewrite !tags_seen_elem, truthy_seen_elem.
  split; [|split; [|split; [|split; [|split]]]].
  - split; [intros [?%elem_of_nil|?]; done|by right].
  - split; [intros [?%elem_of_nil|?]; done|by right].
  - split; [intros [?%elem_of_nil|?]; done|by right].
  - apply default_sort_NoDup, tags_seen_NoDup, NoDup_nil_2.
  - apply default_sort_NoDup, tags_seen_NoDup, NoDup_nil_2.
  - apply default_sort_NoDup, truthy_seen_NoDup, NoDup_nil_2.
Qed.

Lemma filter_options_are_the_values_used_witness :
  "video" ∈ fo_modalities (getFilterOptions [Sample.m2020; Sample.undated]).
Proof.
  apply (filter_options_are_the_values_used [Sample.m2020; Sample.undated] "video").
  exists Sample.undated, ["text"; "video"].
  split; [right; left|]. split; [reflexivity|right; left].
Defined.

(** X18.  The maturity options are the levels of the fixed scale that
    occur in the methods, always in the order of the scale; a maturity
    value outside the scale is never offered. *)
Theorem maturity_options_follow_scale (methods : list Method) (x : string) :
  let o := getFilterOptions methods in
  fo_maturityLevels o
    `sublist_of` ["research"; "emerging"; "established"; "mature"] ∧
  (x ∈ fo_maturityLevels o
   ↔ x ∈ ["research"; "emerging"; "established"; "mature"] ∧
     ∃ m, m ∈ methods ∧ m_maturity m = Some x).
Proof.
  intros o. subst o. unfold getFilterOptions. cbn [fo_maturityLevels].
  split; [apply filter_sublist|].
  rewrite list_elem_of_In, filter_In, <- list_elem_of_In, bool_decide_eq_true.
  unfold maturityLevels_seen. rewrite truthy_seen_elem. split.
  - intros [Hx [?%elem_of_nil|[_ ?]]]; done.
  - intros [Hx Hm]. split; [done|]. right. split; [|done].
    intros ->.
    repeat (apply elem_of_cons in Hx as [Hx|Hx]; [discriminate Hx|]).
    by apply elem_of_nil in Hx.
Qed.

Lemma maturity_options_follow_scale_witness :
  "emerging" ∈ fo_maturityLevels (getFilterOptions [Sample.m2020]).
Proof.
  apply (maturity_options_follow_scale [Sample.m2020] "emerging").
  split; [right; left|]. exists Sample.m2020. split; [left|reflexivity].
Defined.

Lemma years_seen_elem (methods : list Method) (init : list Z) (y : Z) :
  y ∈ foldl (λ s method,
               if JS.truthy_Z (year_of method)
               then set_add s (default 0 (year_of method)) else s)
        init methods
  ↔ y ∈ init ∨ (y ≠ 0 ∧ ∃ m, m ∈ methods ∧ year_of m = Some y).
Proof.
  revert init. induction methods as [|m methods IH]; intros init; simpl.
  - split; [by left|]. intros [?|(_ & m & ?%elem_of_nil & _)]; done.
  - rewrite IH. unfold JS.truthy_Z.
    destruct (year_of m) as [v|] eqn:Hf; simpl.
    + destruct (Z.eqb_spec v 0) as [->|Hv]; simpl.
      * split.
        -- intros [?|(Hy & m' & Hm' & Hy')]; [by left|].
           right. split; [done|]. exists m'. split; [by right|done].
        -- intros [?|(Hy & m' & Hm' & Hy')]; [by left|].
           apply elem_of_cons in Hm' as [->|Hm']; [congruence|].
           right. split; [done|]. by exists m'.
      * rewrite set_add_elem. split.
        -- intros [[?| ->]|(Hy & m' & Hm' & Hy')].
           ++ by left.
           ++ right. split; [done|]. exists m. split; [left|done].
           ++ right. split; [done|]. exists m'. split; [by right|done].
        -- intros [?|(Hy & m' & Hm' & Hy')]; [by left; left|].
           apply elem_of_cons in Hm' as [->|Hm'].
           ++ left. right. congruence.
           ++ right. split; [done|]. by exists m'.
    + split.
      * intros [?|(Hy & m' & Hm' & Hy')]; [by left|].
        right. split; [done|]. exists m'. split; [by right|done].
      * intros [?|(Hy & m' & Hm' & Hy')]; [by left|].
        apply elem_of_cons in Hm' as [->|Hm']; [congruence|].
        right. split; [done|]. by exists m'.
Qed.

Lemma sorted_years_bounds (years : list Z) (y : Z) :
  let a := array_sort (λ a b, inject_Z (a - b)) years in
  y ∈ years →
  ∃ lo hi, a !! 0%nat = Some lo ∧ a !! (length a - 1)%nat = Some hi ∧
           lo ≤ y ≤ hi ∧ lo ∈ years ∧ hi ∈ years.
Proof.
  intros a Hy.
  assert (∀ x, x ∈ a ↔ x ∈ years) as Hperm
    by (intros x; unfold a; by rewrite array_sort_perm).
  assert (∀ i j x z, (i < j)%nat → a !! i = Some x → a !! j = Some z → x ≤ z)
    as Hsorted.
  { intros i j x z Hij Hi Hj. rewrite Zle_Qle.
    apply (array_sort_lookup_le (λ a b, inject_Z (a - b)) inject_Z)
      with years i j; [|done..].
    intros u v. unfold Z.sub. rewrite inject_Z_plus, inject_Z_opp. lra. }
  apply Hperm in Hy. apply list_elem_of_lookup in Hy as [k Hk].
  pose proof (lookup_lt_Some _ _ _ Hk) as Hlen.
  destruct (lookup_lt_is_Some_2 a 0%nat) as [lo Hlo]; [lia|].
  destruct (lookup_lt_is_Some_2 a (length a - 1)%nat) as [hi Hhi]; [lia|].
  exists lo, hi. repeat split; try done.
  - destruct (decide (k = 0%nat)) as [->|]; [by simplify_eq|].
    apply (Hsorted 0%nat k); [lia|done..].
  - destruct (decide (k = (length a - 1)%nat)) as [->|]; [by simplify_eq|].
    apply (Hsorted k (length a - 1)%nat); [lia|done..].
  - apply Hperm. by eapply list_elem_of_lookup_2.
  - apply Hperm. by eapply list_elem_of_lookup_2.
Qed.

(** X19.  The year range offered spans every year that occurs (a year 0
    does not count as one): it runs from the smallest to the largest of
    them, and is 2010 to 2026 when no method has a year. *)
Theorem year_options_span_the_years (methods : list Method) :
  let r := fo_yearRange (getFilterOptions methods) in
  ((∀ m, m ∈ methods → year_of m = None ∨ year_of m = Some 0) →
   ys_min r = 2010 ∧ ys_max r = 2026) ∧
  (∀ m y, m ∈ methods → year_of m = Some y → y ≠ 0 →
   ys_min r ≤ y ≤ ys_max r ∧
   (∃ m', m' ∈ methods ∧ year_of m' = Some (ys_min r)) ∧
   (∃ m', m' ∈ methods ∧ year_of m' = Some (ys_max r))).
Proof.
  intros r. subst r. unfold getFilterOptions. cbn [fo_yearRange ys_min ys_max].
  assert (∀ y, y ∈ years_seen methods
               ↔ y ≠ 0 ∧ ∃ m, m ∈ methods ∧ year_of m = Some y) as Hseen.
  { intros y. unfold years_seen. rewrite years_seen_elem. split; [|by right].
    by intros [?%elem_of_nil|?]. }
  split.
  - intros Hnone. assert (years_seen methods = []) as ->; [|done].
    destruct (years_seen methods) as [|y l]; [done|].
    destruct (proj1 (Hseen y)) as (Hy0 & m & Hm & Hym); [left|].
    destruct (Hnone m Hm); congruence.
  - intros m y Hm Hy Hy0.
    destruct (sorted_years_bounds (years_seen methods) y)
      as (lo & hi & -> & -> & Hle & Hlo & Hhi).
    { apply Hseen. eauto. }
    apply Hseen in Hlo as (Hlo0 & Hlo). apply Hseen in Hhi as (Hhi0 & Hhi).
    simpl. destruct (Z.eqb_spec lo 0); [done|]. destruct (Z.eqb_spec hi 0); [done|].
    done.
Qed.

Lemma year_options_span_the_years_witness :
  ys_min (fo_yearRange (getFilterOptions
                          [Sample.m2020; Sample.undated; Sample.m2015])) ≤ 2020.
Proof.
  destruct (year_options_span_the_years
              [Sample.m2020; Sample.undated; Sample.m2015]) as [_ Hspan].
  destruct (Hspan Sample.m2020 2020) as [[Hmin _] _];
    [left|reflexivity|discriminate|exact Hmin].
Defined.

Lemma no_selector_inactive (f : Filters) (filterName : ArrayFilter) :
  no_selector f = true → default [] (array_filter f filterName) = [].
Proof.
  unfold no_selector, selector_active.
  rewrite !andb_true_iff, !negb_true_iff. intros [[[[[_ Hm] Ht] He] Hl] _].
  destruct filterName; simpl;
    [destruct (modalities f) as [[|]|]
    |destruct (tasks f) as [[|]|]
    |destruct (maturityLevels f) as [[|]|]
    |destruct (evidenceTypes f) as [[|]|]]; done.
Qed.

Lemma option_has_method (methods : list Method) (filterName : ArrayFilter)
    (x : string) :
  x ∈ options_of (getFilterOptions methods) filterName →
  ∃ m, m ∈ methods ∧
    match filterName with
    | F_modalities => ∃ l, m_modalities m = Some l ∧ x ∈ l
    | F_tasks => ∃ l, m_tasks m = Some l ∧ x ∈ l
    | F_maturityLevels => m_maturity m = Some x
    | F_evidenceTypes => m_evidence_type m = Some x
    end.
Proof.
  destruct filterName; unfold getFilterOptions; cbn [options_of fo_modalities
    fo_tasks fo_maturityLevels fo_evidenceTypes].
  - rewrite default_sort_elem. unfold modalities_seen. rewrite tags_seen_elem.
    intros [?%elem_of_nil|(m & l & ? & ? & ?)]; [done|]. exists m. eauto.
  - rewrite default_sort_elem. unfold tasks_seen. rewrite tags_seen_elem.
    intros [?%elem_of_nil|(m & l & ? & ? & ?)]; [done|]. exists m. eauto.
  - rewrite list_elem_of_In, filter_In, bool_decide_eq_true.
    unfold maturityLevels_seen. rewrite truthy_seen_elem.
    intros [_ [?%elem_of_nil|(_ & m & ? & ?)]]; [done|]. exists m. eauto.
  - rewrite default_sort_elem. unfold evidenceTypes_seen. rewrite truthy_seen_elem.
    intros [?%elem_of_nil|(_ & m & ? & ?)]; [done|]. exists m. eauto.
Qed.

(** X20.  No option of the filters panel is dead: with the data loaded
    and nothing else selected, switching on any modality, task, maturity
    level or evidence type the panel offers leaves at least one method in
    the list. *)
Theorem offered_option_is_not_dead (state : State) (d : Dataset) (idx : Fuse)
    (filterName : ArrayFilter) (x : string) :
  data state = Some d → searchIndex state = Some idx →
  no_selector (filters state) = true →
  (length (JS.trim (searchQuery (filters state))) < 2)%nat →
  x ∈ options_of (getFilterOptions (allMethods state)) filterName →
  ∃ m, m ∈ filteredMethods
             (appReducer state (toggleArrayFilter (filters state) filterName x)).
Proof.
  intros Hd Hi Hno Hq Hx.
  unfold allMethods in Hx. rewrite Hd in Hx. simpl in Hx.
  apply option_has_method in Hx as (m & Hm & Hx). exists m.
  unfold toggleArrayFilter. rewrite no_selector_inactive by done. simpl.
  unfold filteredMethods.
  destruct state as [d' ? ? ? f ? ? ? ? ? ? ? ? ? idx']; simpl in *. subst.
  assert (searchQuery (merge_filters f (array_patch filterName [x]))
          = searchQuery f) as Hq' by (by destruct filterName).
  rewrite short_query_apply by (by rewrite Hq').
  apply filterMethods_elem. split; [done|].
  apply keepMethod_true.
  revert Hno. unfold no_selector. rewrite !andb_true_iff, !negb_true_iff.
  intros [[[[[Hs Hmo] Ht] He] Hl] Hy].
  assert (∀ sel, selector_active sel = false → ¬ Spec.nonempty sel) as Hoff.
  { intros sel Hsel Hne%selector_active_nonempty. congruence. }
  assert (Spec.stage_ok (merge_filters f (array_patch filterName [x])) m) as Hstage.
  { apply stage_check. replace (pipelineStep (merge_filters f _))
      with (pipelineStep f) by (by destruct filterName). by rewrite Hs. }
  assert (Spec.year_not_outside (merge_filters f (array_patch filterName [x])) m)
    as Hyear.
  { apply year_test_true. replace (yearRange (merge_filters f _))
      with (yearRange f) by (by destruct filterName).
    unfold year_test. destruct (yearRange f) as [r|]; [|done]. simpl in Hy.
    apply andb_true_iff in Hy as [Hmin Hmax].
    apply negb_true_iff in Hmin, Hmax. by rewrite Hmin, Hmax. }
  split; [|done]. split; [done|].
  unfold Spec.modalities_ok, Spec.tasks_ok, Spec.evidence_ok, Spec.maturity_ok.
  destruct filterName; simpl in *.
  - destruct Hx as (l & Hl' & Hxl). repeat split; intros Hne;
      try (by apply Hoff in Hne).
    exists x. rewrite Hl'. split; [left|done].
  - destruct Hx as (l & Hl' & Hxl). repeat split; intros Hne;
      try (by apply Hoff in Hne).
    exists x. rewrite Hl'. split; [left|done].
  - repeat split; intros Hne; try (by apply Hoff in Hne).
    exists x. split; [done|left].
  - repeat split; intros Hne; try (by apply Hoff in Hne).
    exists x. split; [done|left].
Qed.

Lemma offered_option_is_not_dead_witness :
  ∃ m, m ∈ filteredMethods
             (appReducer Demo.loaded
                (toggleArrayFilter (filters Demo.loaded) F_modalities "video")).
Proof.
  apply (offered_option_is_not_dead Demo.loaded Demo.dataset Sample.no_match
           F_modalities "video"); try reflexivity.
  - simpl. lia.
  - vm_compute. right; right; right; left.
Defined.

(** ** Counters *)

Lemma count_key_plain (counts : gmap string counter) (k : string) :
  plain k → counting counts →
  count_key counts k = <[k := Count (counted counts k + 1)]> counts.
Proof.
  intros Hplain Hcounting. unfold count_key, counted.
  destruct (counts !! k) as [c|] eqn:Hk.
  - destruct (Hcounting k c Hk) as (v & -> & Hv). simpl.
    by destruct (Z.eqb_spec v 0); [lia|].
  - by rewrite Hplain.
Qed.

Lemma count_key_counting (counts : gmap string counter) (k : string) :
  plain k → counting counts → counting (count_key counts k).
Proof.
  intros Hplain Hcounting j c. rewrite count_key_plain by done.
  destruct (decide (j = k)) as [->|Hne].
  - rewrite lookup_insert_eq. intros [= <-]. eexists. split; [done|].
    unfold counted. destruct (counts !! k) as [c|] eqn:Hk; [|lia].
    destruct (Hcounting k c Hk) as (v & -> & Hv). lia.
  - rewrite lookup_insert_ne by done. apply Hcounting.
Qed.

Lemma total_count_key (counts : gmap string counter) (k : string) :
  plain k → counting counts →
  total (count_key counts k) = total counts + 1.
Proof.
  intros Hplain Hcounting. rewrite count_key_plain by done.
  unfold total, counted.
  assert (∀ (m : gmap string counter) (j1 j2 : string) (z1 z2 : counter)
            (y : Z),
            j1 ≠ j2 → m !! j1 = Some z1 → m !! j2 = Some z2 →
            match z1 with
            | Count n => n + match z2 with Count n' => n' + y | Text => y end
            | Text => match z2 with Count n' => n' + y | Text => y end
            end
            = match z2 with
              | Count n' =>
                  n' + match z1 with Count n => n + y | Text => y end
              | Text => match z1 with Count n => n + y | Text => y end
              end) as Hcomm
    by (intros m j1 j2 [n1|] [n2|] y _ _ _; lia).
  destruct (counts !! k) as [c|] eqn:Hk.
  - destruct (Hcounting k c Hk) as (v & -> & Hv).
    rewrite <- insert_delete_eq.
    rewrite map_fold_insert_L; [|by eauto|by rewrite lookup_delete_eq].
    rewrite (map_fold_delete_L _ _ k (Count v) counts); [lia|by eauto|done].
  - rewrite map_fold_insert_L; [lia|by eauto|done].
Qed.

Lemma tally_spec (keys : list string) (init : gmap string counter) :
  Forall plain keys → counting init →
  let counts := foldl count_key init keys in
  counting counts ∧
  (∀ k, counted counts k = counted init k + occurrences k keys) ∧
  total counts = total init + Z.of_nat (length keys).
Proof.
  intros Hkeys. revert init.
  induction Hkeys as [|k0 keys Hk0 Hkeys IH]; intros init Hcounting; simpl.
  - split; [done|]. split; [intros k; unfold occurrences; simpl; lia|lia].
  - destruct (IH _ (count_key_counting init k0 Hk0 Hcounting))
      as (Hc & Hl & Ht).
    split; [done|]. split.
    + intros k. rewrite Hl, count_key_plain by done.
      unfold counted at 1, occurrences. simpl.
      destruct (String.eqb_spec k k0) as [->|Hne].
      * rewrite lookup_insert_eq. simpl. lia.
      * rewrite lookup_insert_ne by done. fold (counted init k). lia.
    + rewrite Ht, total_count_key by done. lia.
Qed.

Lemma tally_from_empty (keys : list string) :
  Forall plain keys →
  counting (foldl count_key ∅ keys) ∧
  (∀ k, counted (foldl count_key ∅ keys) k = occurrences k keys) ∧
  total (foldl count_key ∅ keys) = Z.of_nat (length keys).
Proof.
  intros Hkeys.
  destruct (tally_spec keys ∅ Hkeys) as (Hc & Hl & Ht);
    [by intros j c; rewrite lookup_empty|].
  simpl in *. split; [done|]. split.
  - intros k. rewrite Hl. unfold counted. rewrite lookup_empty. lia.
  - rewrite Ht. unfold total. rewrite map_fold_empty. lia.
Qed.

Lemma foldl_count_key_map {B} (f : B → string) (l : list B)
    (init : gmap string counter) :
  foldl (λ counts b, count_key counts (f b)) init l
  = foldl count_key init (map f l).
Proof. revert init. induction l as [|b l IH]; intros init; simpl; [done|apply IH]. Qed.

(** X21.  For methods whose stage names no property that objects
    inherit (no stage of the pipeline does), [getStepCounts] holds, for
    each stage, the number of methods of that stage, and has no entry
    for a stage without methods; its counts add up to the number of
    methods. *)
Theorem step_counts_count (methods : list Method) (step : string) :
  Forall (λ m, plain (m_pipeline_step m)) methods →
  let n := occurrences step (map m_pipeline_step methods) in
  getStepCounts methods !! step = (if n =? 0 then None else Some (Count n)) ∧
  (getStepCounts methods !! step = None
   ↔ ∀ m, m ∈ methods → m_pipeline_step m ≠ step) ∧
  total (getStepCounts methods) = Z.of_nat (length methods).
Proof.
  intros Hplain n. unfold getStepCounts. rewrite foldl_count_key_map.
  destruct (tally_from_empty (map m_pipeline_step methods))
    as (Hc & Hl & Ht); [by apply Forall_fmap|].
  specialize (Hl step). fold n in Hl.
  assert (foldl count_key ∅ (map m_pipeline_step methods) !! step
          = if n =? 0 then None else Some (Count n)) as Hlookup.
  { unfold counted in Hl.
    destruct (foldl count_key ∅ (map m_pipeline_step methods) !! step)
      as [c|] eqn:Hv.
    - destruct (Hc _ _ Hv) as (v & -> & Hpos). subst v.
      by destruct (Z.eqb_spec n 0); [lia|].
    - by rewrite <- Hl. }
  split; [done|]. split.
  - rewrite Hlookup. unfold n, occurrences. split.
    + intros Hnone m Hm Heq.
      destruct (Z.eqb_spec (Z.of_nat (length (List.filter (String.eqb step)
                                        (map m_pipeline_step methods)))) 0)
        as [Hz|]; [|done].
      assert (step ∈ List.filter (String.eqb step) (map m_pipeline_step methods))
        as Hin.
      { apply list_elem_of_In, filter_In. split.
        - apply list_elem_of_In, list_elem_of_fmap. by exists m.
        - apply String.eqb_refl. }
      destruct (List.filter _ _); [by apply elem_of_nil in Hin|simpl in Hz; lia].
    + intros Hno.
      assert (List.filter (String.eqb step) (map m_pipeline_step methods) = [])
        as ->; [|done].
      destruct (List.filter _ _) as [|x l] eqn:Hf; [done|].
      assert (x ∈ List.filter (String.eqb step) (map m_pipeline_step methods))
        as Hin by (rewrite Hf; left).
      apply list_elem_of_In, filter_In in Hin as [Hin Hx].
      apply String.eqb_eq in Hx as <-.
      apply list_elem_of_In, list_elem_of_fmap in Hin as (m & Hs & Hm).
      by destruct (Hno m Hm).
  - by rewrite Ht, length_map.
Qed.

Lemma step_counts_count_witness :
  getStepCounts [Sample.m2015; Sample.m2020; Sample.also2015] !! "preprocess"
  = Some (Count 2) ∧
  total (getStepCounts [Sample.m2015; Sample.m2020; Sample.also2015]) = 3.
Proof.
  assert (Forall (λ m, plain (m_pipeline_step m))
            [Sample.m2015; Sample.m2020; Sample.also2015]) as Hplain
    by (repeat constructor).
  destruct (step_counts_count [Sample.m2015; Sample.m2020; Sample.also2015]
              "preprocess" Hplain) as (Hcount & _ & Htotal).
  split; [exact Hcount|exact Htotal].
Defined.

Lemma count_method_fold (st : Statistics) (methods : list Method) :
  let st' := foldl count_method st methods in
  totalMethods st' = totalMethods st ∧
  stepCounts st'
  = foldl count_key (stepCounts st) (map m_pipeline_step methods) ∧
  modalityCounts st'
  = foldl count_key (modalityCounts st)
      (concat (map (λ m, default [] (m_modalities m)) methods)) ∧
  taskCounts st'
  = foldl count_key (taskCounts st)
      (concat (map (λ m, default [] (m_tasks m)) methods)).
Proof.
  revert st. induction methods as [|m methods IH]; intros st; simpl; [done|].
  destruct (IH (count_method st m)) as (-> & -> & -> & ->). simpl.
  by rewrite !foldl_app.
Qed.

(** X22.  In [getStatistics], [totalMethods] is the number of methods
    and the stage counts are those of [getStepCounts].  When no stage,
    modality or task of the data names a property that objects inherit
    (none of the data model does), the stage counts add up to
    [totalMethods], and the modality and task counts count every
    listing: a method with two modalities counts twice, so these add up
    to the number of listings. *)
Theorem statistics_count (data : Catalog) (x : string) :
  let methods := map e_method (default [] (c_methods data)) in
  let st := getStatistics data in
  let listed (field : Method → option (list string)) :=
    concat (map (λ m, default [] (field m)) methods) in
  Forall (λ m, plain (m_pipeline_step m)) methods →
  Forall plain (listed m_modalities) →
  Forall plain (listed m_tasks) →
  totalMethods st = length methods ∧
  stepCounts st = getStepCounts methods ∧
  total (stepCounts st) = Z.of_nat (totalMethods st) ∧
  counted (modalityCounts st) x = occurrences x (listed m_modalities) ∧
  counted (taskCounts st) x = occurrences x (listed m_tasks) ∧
  total (modalityCounts st) = Z.of_nat (length (listed m_modalities)) ∧
  total (taskCounts st) = Z.of_nat (length (listed m_tasks)).
Proof.
  intros methods st listed Hsteps Hmodalities Htasks.
  unfold st, getStatistics. fold methods.
  destruct (count_method_fold
              {| totalMethods := length methods; stepCounts := ∅;
                 modalityCounts := ∅; taskCounts := ∅; maturityCounts := ∅;
                 yearCounts := ∅ |} methods) as (-> & -> & -> & ->).
  cbn [totalMethods stepCounts modalityCounts taskCounts].
  destruct (tally_from_empty (map m_pipeline_step methods))
    as (_ & _ & Hst); [by apply Forall_fmap|].
  destruct (tally_from_empty (listed m_modalities) Hmodalities)
    as (_ & Hml & Hmt).
  destruct (tally_from_empty (listed m_tasks) Htasks) as (_ & Htl & Htt).
  split; [done|]. split.
  { unfold getStepCounts. symmetry. apply foldl_count_key_map. }
  split; [by rewrite Hst, length_map|].
  repeat split; done.
Qed.

Lemma statistics_count_witness :
  counted (modalityCounts (getStatistics Demo.catalog)) "text" = 2 ∧
  total (modalityCounts (getStatistics Demo.catalog)) = 5.
Proof.
  assert (Forall (λ m, plain (m_pipeline_step m))
            (map e_method (default [] (c_methods Demo.catalog)))) as Hsteps
    by (repeat constructor).
  assert (Forall plain
            (concat (map (λ m, default [] (m_modalities m))
                       (map e_method (default [] (c_methods Demo.catalog))))))
    as Hmodalities by (repeat constructor).
  assert (Forall plain
            (concat (map (λ m, default [] (m_tasks m))
                       (map e_method (default [] (c_methods Demo.catalog))))))
    as Htasks by (repeat constructor).
  destruct (statistics_count Demo.catalog "text" Hsteps Hmodalities Htasks)
    as (_ & _ & _ & Hcount & _ & Htotal & _).
  split; [exact Hcount|exact Htotal].
Defined.

(** ** Lookups by id *)

Lemma find_first_by_key {A} (key : A → string) (l : list A) (a : A) :
  NoDup (map key l) → a ∈ l →
  List.find (λ b, String.eqb (key b) (key a)) l = Some a.
Proof.
  induction l as [|b l IH]; intros Hnd Hin; [by apply elem_of_nil in Hin|].
  simpl in *. apply NoDup_cons in Hnd as [Hb Hnd].
  destruct (String.eqb_spec (key b) (key a)) as [Heq|Hne].
  - apply elem_of_cons in Hin as [->|Hin]; [done|].
    destruct Hb. rewrite Heq. apply list_elem_of_fmap. by exists a.
  - apply elem_of_cons in Hin as [->|Hin]; [done|]. by apply IH.
Qed.

(** X23.  [getMethodById] returns the first method with the id asked
    for: the result has that id and is in the dataset; it is [null] only
    when no method has the id (or the dataset has no methods array); and
    when ids are unique, every method is found under its own id. *)
Theorem getMethodById_finds (data : Catalog) (id : string) :
  (∀ m, getMethodById data id = Some m →
        e_id m = id ∧ ∃ ms, c_methods data = Some ms ∧ m ∈ ms) ∧
  (getMethodById data id = None
   ↔ ∀ ms m, c_methods data = Some ms → m ∈ ms → e_id m ≠ id) ∧
  (∀ ms m, c_methods data = Some ms → NoDup (map e_id ms) → m ∈ ms →
           getMethodById data (e_id m) = Some m).
Proof.
  unfold getMethodById. destruct (c_methods data) as [ms|]; simpl.
  - split; [|split].
    + intros m [Hin Heq]%find_some. apply String.eqb_eq in Heq.
      split; [done|]. exists ms. split; [done|]. by apply list_elem_of_In.
    + split.
      * intros Hnone ms' m [= <-] Hm Heq.
        pose proof (find_none _ _ Hnone m (proj1 (list_elem_of_In _ _) Hm)) as Hf.
        simpl in Hf. rewrite Heq, String.eqb_refl in Hf. done.
      * intros Hno. destruct (List.find _ ms) as [m|] eqn:Hf; [|done].
        apply find_some in Hf as [Hin Heq]. apply String.eqb_eq in Heq.
        destruct (Hno ms m eq_refl); [by apply list_elem_of_In|done].
    + intros ms' m [= <-] Hnd Hm. by apply find_first_by_key.
  - split; [done|]. split; [done|]. by intros ms m [=].
Qed.

Lemma getMethodById_finds_witness :
  getMethodById
    {| c_pipeline_steps := None;
       c_methods := Some [ {| e_method := Sample.m2015; e_tags := None;
                              e_related_method_ids := None |};
                           {| e_method := Sample.m2020; e_tags := None;
                              e_related_method_ids := None |} ] |}
    "m-2020"
  = Some {| e_method := Sample.m2020; e_tags := None;
            e_related_method_ids := None |}.
Proof.
  destruct (getMethodById_finds
              {| c_pipeline_steps := None;
                 c_methods := Some [ {| e_method := Sample.m2015; e_tags := None;
                                        e_related_method_ids := None |};
                                     {| e_method := Sample.m2020; e_tags := None;
                                        e_related_method_ids := None |} ] |}
              "m-2020") as (_ & _ & Hfound).
  apply (Hfound _ {| e_method := Sample.m2020; e_tags := None;
                     e_related_method_ids := None |} eq_refl).
  - repeat constructor; rewrite ?elem_of_cons, ?elem_of_nil; intuition discriminate.
  - right; left.
Defined.

(** ** Related methods *)

Lemma push_new_elem (related : list Related) (m r : Related) :
  r ∈ push_new related m → r ∈ related ∨ r = m.
Proof.
  unfold push_new. destruct (existsb _ related); [by left|].
  rewrite elem_of_app, list_elem_of_singleton. done.
Qed.

Lemma push_new_NoDup (related : list Related) (m : Related) :
  NoDup (map rel_id related) → NoDup (map rel_id (push_new related m)).
Proof.
  intros Hnd. unfold push_new.
  destruct (existsb _ related) eqn:He; [done|].
  rewrite map_app. apply NoDup_app. repeat split; [done| |apply NoDup_singleton].
  intros x Hx ->%list_elem_of_singleton.
  apply list_elem_of_fmap in Hx as (r & Hr & Hin).
  apply not_true_iff_false in He. apply He, existsb_exists.
  exists r. split; [by apply list_elem_of_In|]. rewrite <- Hr. apply String.eqb_refl.
Qed.

Lemma foldl_push_new {B} (mk : B → Related) (l : list B)
    (related : list Related) :
  (∀ r, r ∈ foldl (λ rel b, push_new rel (mk b)) related l →
        r ∈ related ∨ ∃ b, b ∈ l ∧ r = mk b) ∧
  (NoDup (map rel_id related) →
   NoDup (map rel_id (foldl (λ rel b, push_new rel (mk b)) related l))) ∧
  related `prefix_of` foldl (λ rel b, push_new rel (mk b)) related l.
Proof.
  revert related. induction l as [|b l IH]; intros related; simpl.
  - split; [by left|]. done.
  - destruct (IH (push_new related (mk b))) as (Hin & Hnd & Hpre).
    split; [|split].
    + intros r [Hr|(b' & Hb' & ->)]%Hin.
      * apply push_new_elem in Hr as [?| ->]; [by left|].
        right. exists b. split; [left|done].
      * right. exists b'. split; [by right|done].
    + intros H. by apply Hnd, push_new_NoDup.
    + etrans; [|exact Hpre]. unfold push_new.
      destruct (existsb _ related); [done|]. by apply prefix_app_r.
Qed.

Lemma elem_of_take_1 {A} (n : nat) (l : list A) (x : A) : x ∈ take n l → x ∈ l.
Proof. apply sublist_subseteq, sublist_take. Qed.

Lemma linked_ids_sublist (data : Catalog) (ids : list string) :
  map rel_id
    (omap (λ id, (λ m, {| rel_entry := m; relationship := "linked";
                          sharedTags := None |})
                 <$> getMethodById data id) ids)
  `sublist_of` ids.
Proof.
  induction ids as [|id ids IH]; simpl; [done|].
  destruct (getMethodById data id) as [m|] eqn:Hm; simpl.
  - unfold getMethodById in Hm.
    destruct (c_methods data) as [ms|]; [|done]. simpl in Hm.
    apply find_some in Hm as [_ Heq]. apply String.eqb_eq in Heq.
    unfold rel_id at 1. simpl. rewrite Heq. by apply sublist_skip.
  - by apply sublist_cons.
Qed.

(** X24.  [getRelatedMethods] returns at most six methods, all of them
    from the dataset, and none for an id the dataset does not have.  The
    same-step and shared-tags suggestions are never the method itself
    (an explicit link may be), and when the explicit links name no id
    twice, no method is suggested twice. *)
Theorem related_methods_bounded (data : Catalog) (methodId : string) :
  let related := getRelatedMethods data methodId in
  (length related ≤ 6)%nat ∧
  (getMethodById data methodId = None → related = []) ∧
  (∀ r, r ∈ related →
     (∃ ms, c_methods data = Some ms ∧ rel_entry r ∈ ms) ∧
     relationship r ∈ ["linked"; "same-step"; "shared-tags"] ∧
     (relationship r ≠ "linked" → rel_id r ≠ methodId)) ∧
  (∀ method, getMethodById data methodId = Some method →
     NoDup (default [] (e_related_method_ids method)) →
     NoDup (map rel_id related)).
Proof.
  unfold getRelatedMethods.
  destruct (getMethodById data methodId) as [method|] eqn:Hmethod; simpl.
  2: { split; [lia|]. split; [done|]. split; [|done]. by intros r ?%elem_of_nil. }
  set (all := default [] (c_methods data)).
  set (linked := omap _ (default [] (e_related_method_ids method))).
  set (mk1 := λ m, {| rel_entry := m; relationship := "same-step";
                      sharedTags := None |}).
  set (mk2 := λ p : Entry * Z,
                {| rel_entry := fst p; relationship := "shared-tags";
                   sharedTags := Some (snd p) |}).
  set (sameStep := take 3 (List.filter _ all)).
  set (byShared := take 3 (array_sort _ _)).
  destruct (foldl_push_new mk1 sameStep linked) as (Hin1 & Hnd1 & _).
  destruct (foldl_push_new mk2 byShared
              (foldl (λ rel b, push_new rel (mk1 b)) linked sameStep))
    as (Hin2 & Hnd2 & _).
  assert (∃ ms, c_methods data = Some ms) as [ms Hms].
  { unfold getMethodById in Hmethod. destruct (c_methods data); [eauto|done]. }
  assert (all = ms) as Hall by (unfold all; by rewrite Hms).
  split; [rewrite length_take; lia|]. split; [done|]. split.
  - intros r Hr%elem_of_take_1.
    apply Hin2 in Hr as [Hr|(p & Hp & ->)].
    + apply Hin1 in Hr as [Hr|(m & Hm & ->)].
      * unfold linked in Hr. apply list_elem_of_omap in Hr as (id & _ & Hr).
        destruct (getMethodById data id) as [m|] eqn:Hid; [|done].
        simpl in Hr. injection Hr as <-. simpl.
        split; [|split; [left|done]].
        exists ms. split; [done|]. unfold getMethodById in Hid.
        rewrite Hms in Hid. simpl in Hid. apply find_some in Hid as [Hid _].
        by apply list_elem_of_In.
      * unfold sameStep in Hm. apply elem_of_take_1 in Hm.
        apply list_elem_of_In, filter_In in Hm as [Hm Hcond].
        apply andb_true_iff in Hcond as [Hne _]. apply negb_true_iff in Hne.
        simpl. split; [|split; [right; left|]].
        -- exists ms. split; [done|]. rewrite <- Hall. by apply list_elem_of_In.
        -- intros _ Heq. unfold rel_id in Heq. simpl in Heq.
           rewrite Heq, String.eqb_refl in Hne. done.
    + unfold byShared in Hp. apply elem_of_take_1 in Hp.
      rewrite array_sort_perm in Hp.
      apply list_elem_of_In, filter_In in Hp as [Hp _].
      apply in_map_iff in Hp as (m & <- & Hm).
      apply filter_In in Hm as [Hm Hne]. apply negb_true_iff in Hne.
      simpl. split; [|split; [right; right; left|]].
      * exists ms. split; [done|]. rewrite <- Hall. by apply list_elem_of_In.
      * intros _ Heq. unfold rel_id in Heq. simpl in Heq.
        rewrite Heq, String.eqb_refl in Hne. done.
  - intros method' [= <-] Hids.
    eapply sublist_NoDup; [|apply fmap_sublist, sublist_take].
    apply Hnd2, Hnd1. eapply sublist_NoDup; [done|apply linked_ids_sublist].
Qed.

Lemma related_methods_bounded_witness :
  map rel_id (getRelatedMethods Demo.catalog "m-2015") = ["m-2020"; "n-2015"] ∧
  NoDup (map rel_id (getRelatedMethods Demo.catalog "m-2015")).
Proof.
  split; [reflexivity|].
  destruct (related_methods_bounded Demo.catalog "m-2015") as (_ & _ & _ & Hnd).
  apply (Hnd (Demo.entry Sample.m2015 ["ocr"; "nlp"] ["m-2020"; "missing"]));
    [reflexivity|].
  repeat constructor; rewrite ?elem_of_cons, ?elem_of_nil; intuition discriminate.
Defined.

(** ** Paper links *)

(** X25.  [formatPaperUrl] gives no link only for a missing or empty
    reference; every link it gives starts with [http://] or [https://];
    a full URL is passed through unchanged, anything else is put behind
    [https://doi.org/]; formatting a link again changes nothing. *)
Theorem formatPaperUrl_is_a_link (doiOrUrl : option string) :
  (formatPaperUrl doiOrUrl = None ↔ doiOrUrl = None ∨ doiOrUrl = Some "") ∧
  (∀ u, formatPaperUrl doiOrUrl = Some u →
        String.prefix "http://" u = true ∨ String.prefix "https://" u = true) ∧
  (∀ s, doiOrUrl = Some s →
        String.prefix "http://" s = true ∨ String.prefix "https://" s = true →
        formatPaperUrl doiOrUrl = Some s) ∧
  (∀ s, doiOrUrl = Some s → s ≠ "" →
        String.prefix "http://" s = false → String.prefix "https://" s = false →
        formatPaperUrl doiOrUrl = Some ("https://doi.org/" ++ s)%string) ∧
  formatPaperUrl (formatPaperUrl doiOrUrl) = formatPaperUrl doiOrUrl.
Proof.
  assert (∀ s, String.prefix "http://" s = true ∨ String.prefix "https://" s = true →
               formatPaperUrl (Some s) = Some s) as Hfull.
  { intros s Hs. unfold formatPaperUrl, JS.truthy_string. simpl.
    destruct (String.eqb_spec s "") as [->|_]; [by destruct Hs|]. simpl.
    by destruct Hs as [-> | ->]; rewrite ?orb_true_r. }
  assert (∀ u, formatPaperUrl doiOrUrl = Some u →
               String.prefix "http://" u = true ∨ String.prefix "https://" u = true)
    as Hlink.
  { intros u. unfold formatPaperUrl, JS.truthy_string.
    destruct doiOrUrl as [s|]; [|done].
    destruct (String.eqb_spec s "") as [->|_]; [done|]. simpl.
    destruct (String.prefix "http://" s) eqn:H1; simpl; [intros [= <-]; by left|].
    destruct (String.prefix "https://" s) eqn:H2; simpl; [intros [= <-]; by right|].
    destruct (String.prefix "10." s); intros [= <-]; by right. }
  split; [|split; [done|split; [|split]]].
  - unfold formatPaperUrl, JS.truthy_string.
    destruct doiOrUrl as [s|]; [|by split; [left|]].
    destruct (String.eqb_spec s "") as [->|Hs]; simpl; [by split; [right|]|].
    split; [|by intros [|[= ->]]].
    by destruct (_ || _); [|destruct (String.prefix "10." s)].
  - intros s -> Hs. by apply Hfull.
  - intros s -> Hs H1 H2. unfold formatPaperUrl, JS.truthy_string.
    destruct (String.eqb_spec s "") as [|_]; [done|]. simpl. rewrite H1, H2. simpl.
    by destruct (String.prefix "10." s).
  - destruct (formatPaperUrl doiOrUrl) as [u|] eqn:Hu; [|done].
    by apply Hfull, Hlink.
Qed.

Lemma formatPaperUrl_is_a_link_witness :
  formatPaperUrl (Some "10.1000/xyz") = Some "https://doi.org/10.1000/xyz".
Proof.
  destruct (formatPaperUrl_is_a_link (Some "10.1000/xyz")) as (_ & _ & _ & Hdoi & _).
  apply (Hdoi "10.1000/xyz"); [reflexivity|discriminate|reflexivity..].
Defined.

(** ** The compare deep link *)

Lemma split_comma_nonempty (s : string) : split_comma s ≠ [].
Proof.
  destruct s as [|c s]; simpl; [done|].
  destruct (Ascii.eqb c ","); [done|]. by destruct (split_comma s).
Qed.

Lemma split_comma_free (s : string) : comma_free s = true → split_comma s = [s].
Proof.
  induction s as [|c s IH]; simpl; [done|].
  destruct (Ascii.eqb c ","); [done|]. simpl. intros H. by rewrite IH.
Qed.

Lemma split_comma_app (x rest : string) :
  comma_free x = true →
  split_comma (x ++ "," ++ rest) = x :: split_comma rest.
Proof.
  induction x as [|c x IH]; simpl; [done|].
  destruct (Ascii.eqb c ","); [done|]. simpl. intros H. by rewrite IH.
Qed.

Lemma split_comma_pieces (s piece : string) :
  piece ∈ split_comma s → comma_free piece = true.
Proof.
  revert piece. induction s as [|c s IH]; intros piece; simpl.
  - by intros ->%list_elem_of_singleton.
  - destruct (Ascii.eqb c ",") eqn:Hc.
    + intros [->|?]%elem_of_cons; [done|by apply IH].
    + destruct (split_comma s) as [|p ps]; simpl.
      * intros ->%list_elem_of_singleton. simpl. by rewrite Hc.
      * intros [->|?]%elem_of_cons.
        -- simpl. rewrite Hc. simpl. apply IH. left.
        -- apply IH. by right.
Qed.

Lemma join_split (ids : list string) :
  Forall (λ id, id ≠ "" ∧ comma_free id = true) ids →
  List.filter (λ id, negb (String.eqb id "")) (split_comma (join_comma ids)) = ids.
Proof.
  induction 1 as [|id ids [Hne Hfree] Hids IH]; [done|].
  destruct ids as [|id' ids].
  - simpl. rewrite split_comma_free by done. simpl.
    by destruct (String.eqb_spec id "").
  - change (join_comma (id :: id' :: ids))
      with (id ++ "," ++ join_comma (id' :: ids))%string.
    rewrite split_comma_app by done. simpl.
    destruct (String.eqb_spec id ""); [done|]. simpl. f_equal. apply IH.
Qed.

(** X26.  The compare link round-trips: the ids the compare page reads
    from the parameter the compare bar wrote are the ids of the compare
    set, provided no id is empty or holds a comma.  Whatever the
    parameter, the page never reads an empty id or one with a comma, and
    it reads none when the parameter is missing. *)
Theorem compare_link_round_trip (compareMethodIds : list string)
    (param : option string) :
  (Forall (λ id, id ≠ "" ∧ comma_free id = true) compareMethodIds →
   (2 ≤ length compareMethodIds)%nat →
   ∃ q, handleCompare compareMethodIds = Some q ∧
        methodIds_of_query (Some q) = compareMethodIds) ∧
  ((length compareMethodIds < 2)%nat → handleCompare compareMethodIds = None) ∧
  (∀ id, id ∈ methodIds_of_query param → id ≠ "" ∧ comma_free id = true) ∧
  methodIds_of_query None = [].
Proof.
  split; [|split; [|split]]; [| | |done].
  - intros Hids Hlen. exists (join_comma compareMethodIds). split.
    + unfold handleCompare. by destruct (Nat.leb_spec 2 (length compareMethodIds)); [|lia].
    + by apply join_split.
  - intros Hlen. unfold handleCompare.
    by destruct (Nat.leb_spec 2 (length compareMethodIds)); [lia|].
  - intros id. destruct param as [s|]; simpl; [|by intros ?%elem_of_nil].
    rewrite list_elem_of_In, filter_In, <- list_elem_of_In.
    intros [Hin Hne]. split.
    + intros ->. done.
    + by eapply split_comma_pieces.
Qed.

Lemma compare_link_round_trip_witness :
  methodIds_of_query (Some "m-2015,m-2020,n-2015") = ["m-2015"; "m-2020"; "n-2015"].
Proof.
  destruct (compare_link_round_trip ["m-2015"; "m-2020"; "n-2015"] None)
    as [Hround _].
  assert (Forall (λ id, id ≠ "" ∧ comma_free id = true)
            ["m-2015"; "m-2020"; "n-2015"]) as Hok
    by (repeat constructor; discriminate).
  assert (2 ≤ length ["m-2015"; "m-2020"; "n-2015"])%nat as Hlen by (simpl; lia).
  destruct (Hround Hok Hlen) as (q & Hq & Hids).
  injection Hq as <-. exact Hids.
Defined.

Lemma resolve_ids_spec (data : Catalog) (methodIds : list string) :
  (length (resolve_ids data methodIds) ≤ length methodIds)%nat ∧
  map e_id (resolve_ids data methodIds) `sublist_of` methodIds.
Proof.
  unfold resolve_ids. induction methodIds as [|id ids [IH1 IH2]]; [done|].
  change (omap (getMethodById data) (id :: ids))
    with (match getMethodById data id with
          | Some y => y :: omap (getMethodById data) ids
          | None => omap (getMethodById data) ids
          end).
  destruct (getMethodById data id) as [m|] eqn:Hm; cbn [length map].
  - split; [lia|]. unfold getMethodById in Hm.
    destruct (c_methods data) as [ms|]; [|done]. simpl in Hm.
    apply find_some in Hm as [_ Heq]. apply String.eqb_eq in Heq.
    rewrite Heq. by apply sublist_skip.
  - split; [lia|]. by apply sublist_cons.
Qed.

(** X27.  The compare page draws a chart only when at least two of the
    ids given resolve to methods; it then draws one polygon per resolved
    method, in the order of the ids, skipping unknown ids.  A link written
    by the compare bar of the store yields at most three polygons. *)
Theorem compare_page_polygons (data : Catalog) (param : option string)
    (polygons : list (list JS.num)) :
  comparePage data param = Some polygons →
  let methods := resolve_ids data (methodIds_of_query param) in
  polygons = map (λ m, radarValues (e_method m)) methods ∧
  (2 ≤ length polygons ≤ length (methodIds_of_query param))%nat ∧
  map e_id methods `sublist_of` methodIds_of_query param ∧
  (∀ acts, handleCompare (compareMethodIds (dispatch_all acts)) = param →
           Forall (λ id, id ≠ "" ∧ comma_free id = true)
             (compareMethodIds (dispatch_all acts)) →
           (length polygons ≤ 3)%nat).
Proof.
  intros Hpage. cbv zeta. unfold comparePage in Hpage.
  set (methods := resolve_ids data (methodIds_of_query param)) in *.
  destruct (resolve_ids_spec data (methodIds_of_query param)) as [Hlen Hsub].
  fold methods in Hlen, Hsub.
  destruct (Nat.ltb_spec (length (methodIds_of_query param)) 2); [done|].
  destruct (Nat.leb_spec 2 (length methods)); [|done].
  unfold createComparisonVisualization in Hpage. rewrite length_map in Hpage.
  destruct (Nat.ltb_spec (length methods) 2); [lia|].
  injection Hpage as <-. rewrite map_map, !length_map.
  split; [done|]. split; [lia|]. split; [done|].
  intros acts Hlink Hids.
  destruct (dispatch_all_compare_inv acts) as [_ Hthree].
  unfold handleCompare in Hlink.
  destruct (Nat.leb_spec 2 (length (compareMethodIds (dispatch_all acts))));
    [|subst param; simpl in *; lia].
  subst param. unfold methodIds_of_query in Hlen.
  rewrite join_split in Hlen by done. lia.
Qed.

Lemma compare_page_polygons_witness :
  (2 ≤ 2 ≤ length (methodIds_of_query (Some "m-2020,missing,m-2015")))%nat.
Proof.
  destruct (compare_page_polygons Demo.catalog (Some "m-2020,missing,m-2015")
              [radarValues Sample.m2020; radarValues Sample.m2015])
    as (_ & Hlen & _); [reflexivity|exact Hlen].
Defined.

(** ** Validation *)

Lemma filter_nil_iff {A} (p : A → bool) (l : list A) :
  List.filter p l = [] ↔ ∀ x, x ∈ l → p x = false.
Proof.
  induction l as [|x l IH]; simpl.
  - split; [by intros _ x ?%elem_of_nil|done].
  - destruct (p x) eqn:Hx.
    + split; [done|]. intros H. specialize (H x). rewrite Hx in H.
      discriminate H. left.
    + rewrite IH. split.
      * intros H y [->|?]%elem_of_cons; [done|by apply H].
      * intros H y Hy. apply H. by right.
Qed.

Lemma map_nil_iff {A B} (f : A → B) (l : list A) : map f l = [] ↔ l = [].
Proof. by destruct l. Qed.

Lemma concat_imap_nil {A B} (f : nat → A → list B) (l : list A) :
  concat (imap f l) = [] ↔ ∀ i x, l !! i = Some x → f i x = [].
Proof.
  revert f. induction l as [|x l IH]; intros f; simpl.
  - split; [by intros _ i x|done].
  - rewrite app_nil, IH. split.
    + intros [H0 HS] [|i] y; simpl; [by intros [= <-]|apply HS].
    + intros H. split; [by apply (H 0%nat)|]. intros i y. apply (H (S i)).
Qed.

Lemma unique_by_count {A B} `{EqDecision B} (f : A → B) (l : list A) :
  (∀ x, x ∈ l →
     (1 <? length (List.filter (λ y, bool_decide (f y = f x)) l))%nat = false)
  ↔ NoDup (map f l).
Proof.
  induction l as [|a l IH]; simpl.
  - split; [intros _; apply NoDup_nil_2|by intros _ x ?%elem_of_nil].
  - rewrite NoDup_cons, <- IH. split.
    + intros H. split.
      * intros (y & Hy & Hin)%list_elem_of_fmap.
        specialize (H a). rewrite bool_decide_eq_true_2 in H by done.
        simpl in H.
        assert (y ∈ List.filter (λ z, bool_decide (f z = f a)) l) as Hf.
        { apply list_elem_of_In, filter_In. split; [by apply list_elem_of_In|].
          by apply bool_decide_eq_true_2. }
        destruct (List.filter _ l); [by apply elem_of_nil in Hf|].
        discriminate H. left.
      * intros x Hx. specialize (H x).
        destruct (bool_decide (f a = f x)); simpl in H.
        -- apply Nat.ltb_ge. 
           assert ((1 <? S (length (List.filter
                      (λ y, bool_decide (f y = f x)) l)))%nat = false) as H'
             by (apply H; by right).
           apply Nat.ltb_ge in H'. lia.
        -- apply H. by right.
    + intros [Ha Hl] x [->|Hx]%elem_of_cons.
      * rewrite bool_decide_eq_true_2 by done. simpl.
        assert (List.filter (λ y, bool_decide (f y = f a)) l = []) as ->; [|done].
        apply filter_nil_iff. intros y Hy. apply bool_decide_eq_false_2.
        intros Heq. apply Ha. rewrite <- Heq. apply list_elem_of_fmap. by exists y.
      * rewrite bool_decide_eq_false_2.
        -- by apply Hl.
        -- intros Heq. apply Ha. rewrite Heq. apply list_elem_of_fmap. by exists x.
Qed.

Lemma validate_method_nil (methods : list RawMethod) (index : nat)
    (m : RawMethod) :
  validate_method methods index m = []
  ↔ (∀ field, field ∈ requiredFields → field_undefined m field = false) ∧
    (∀ s, raw_pipeline_step m = Some s → s = "" ∨ s ∈ validPipelineSteps) ∧
    (∀ l x, raw_modalities m = Some l → x ∈ l → x ∈ validModalities) ∧
    (∀ l x, raw_tasks m = Some l → x ∈ l → x ∈ validTasks) ∧
    (1 <? length (List.filter (λ y, bool_decide (raw_id y = raw_id m)) methods))%nat
    = false.
Proof.
  unfold validate_method. rewrite !app_nil, !map_nil_iff, !filter_nil_iff.
  assert (∀ (valid l : list string),
            (∀ x, x ∈ l → negb (JS.includes valid x) = false)
            ↔ ∀ x, x ∈ l → x ∈ valid) as Hvalid.
  { intros valid l. split; intros H x Hx.
    - apply includes_true. specialize (H x Hx). by apply negb_false_iff in H.
    - apply negb_false_iff, includes_true. by apply H. }
  rewrite !Hvalid.
  split.
  - intros (Hreq & Hstep & Hmod & Htask & Hdup). repeat split.
    + done.
    + intros s Hs. rewrite Hs in Hstep. simpl in Hstep.
      destruct (String.eqb_spec s "") as [Hempty|_]; [by left|]. right.
      simpl in Hstep. apply includes_true.
      by destruct (JS.includes validPipelineSteps s).
    + intros l x Hl. rewrite Hl in Hmod. apply Hmod.
    + intros l x Hl. rewrite Hl in Htask. apply Htask.
    + by destruct (1 <? _)%nat.
  - intros (Hreq & Hstep & Hmod & Htask & Hdup). repeat split.
    + done.
    + destruct (raw_pipeline_step m) as [s|]; [|done]. simpl.
      destruct (String.eqb_spec s "") as [|Hne]; [done|]. simpl.
      destruct (Hstep s eq_refl) as [|Hs%includes_true]; [done|]. by rewrite Hs.
    + destruct (raw_modalities m) as [l|]; simpl;
        [intros x Hx; by apply (Hmod l x)|].
      by intros x ?%elem_of_nil.
    + destruct (raw_tasks m) as [l|]; simpl;
        [intros x Hx; by apply (Htask l x)|].
      by intros x ?%elem_of_nil.
    + by rewrite Hdup.
Qed.

(** X28.  [validateMethodsData] accepts a document exactly when it has
    its metadata, its pipeline steps and its methods, and every method
    has all fifteen required fields, a stage that is empty or one of the
    six, only modalities of the six and tasks of the ten it lists, and no
    two methods share an id.  The result is valid exactly when no error
    is reported. *)
Theorem validation_accepts (data : RawData) :
  (isValid (validateMethodsData data) = true
   ↔ errors (validateMethodsData data) = []) ∧
  (isValid (validateMethodsData data) = true
   ↔ rd_metadata data = true ∧ is_Some (rd_pipeline_steps data) ∧
     ∃ methods, rd_methods data = Some methods ∧
       NoDup (map raw_id methods) ∧
       ∀ m, m ∈ methods →
         (∀ field, field ∈ requiredFields → field_undefined m field = false) ∧
         (∀ s, raw_pipeline_step m = Some s → s = "" ∨ s ∈ validPipelineSteps) ∧
         (∀ l x, raw_modalities m = Some l → x ∈ l → x ∈ validModalities) ∧
         (∀ l x, raw_tasks m = Some l → x ∈ l → x ∈ validTasks)).
Proof.
  assert (isValid (validateMethodsData data) = true
          ↔ errors (validateMethodsData data) = []) as Hvalid.
  { unfold validateMethodsData. cbn [isValid errors].
    rewrite Nat.eqb_eq. split; [apply nil_length_inv|by intros ->]. }
  split; [done|]. rewrite Hvalid. unfold validateMethodsData. cbn [errors].
  rewrite !app_nil. split.
  - intros (Hmeta & Hsteps & Hmethods & Heach). split; [|split].
    + by destruct (rd_metadata data).
    + by destruct (rd_pipeline_steps data).
    + destruct (rd_methods data) as [methods|]; [|done]. exists methods.
      split; [done|]. rewrite concat_imap_nil in Heach.
      assert (∀ m, m ∈ methods → validate_method methods 0 m = []
                                  ∨ ∃ i, validate_method methods i m = []) as Hm.
      { intros m [i Hi]%list_elem_of_lookup. right. exists i. by apply Heach. }
      split.
      * apply unique_by_count. intros m Hin.
        destruct (Hm m Hin) as [H|[i H]]; apply validate_method_nil in H; tauto.
      * intros m Hin.
        destruct (Hm m Hin) as [H|[i H]]; apply validate_method_nil in H; tauto.
  - intros (Hmeta & [steps Hsteps] & methods & Hmethods & Hnd & Heach).
    rewrite Hmeta, Hsteps, Hmethods. simpl. repeat split.
    apply concat_imap_nil. intros i m Hi.
    assert (m ∈ methods) as Hin by (by eapply list_elem_of_lookup_2).
    apply validate_method_nil. destruct (Heach m Hin) as (? & ? & ? & ?).
    repeat split; try done. by apply (unique_by_count raw_id methods).
Qed.

Lemma validation_accepts_witness :
  NoDup (map raw_id [Demo.raw "a"; Demo.raw "b"]).
Proof.
  destruct (validation_accepts Demo.document) as [_ [Haccepted _]].
  destruct (Haccepted eq_refl) as (_ & _ & methods & Hmethods & Hnd & _).
  injection Hmethods as <-. exact Hnd.
Defined.
